(** * Email ingest: normalisation and persistence pipeline

    A shallow embedding of [api/pull-and-parse.ts] and the properties of
    its description that concern the draft normaliser
    ([transformAiToDraft], [asQty], [normalizeCatalog]), the brand
    resolver ([resolveBrand]), the persistence chain
    ([saveDraftToSupabase]) and the request handler ([handler]).

    Conventions of the embedding.
    - A JavaScript string is a [string] of 7-bit characters.  The white
      space class, the case mapping and the digits are those of
      ECMAScript restricted to code points below 128; a character at 128
      or above is kept as it is, has no case and is not white space.
    - A value of type [unknown] is a JSON value ([JsValue]): it is what
      [JSON.parse] can build, which is where the values of this program
      come from.  A number is carried by the text [String] gives for it,
      the only way this program looks at a number.
    - [parseInt] returns an integer-valued double; it is modelled on [Z]
      with the rounding to binary64 written out.
    - A function that can throw returns a [Result]; code that talks to
      the datastore runs in a state-and-exception monad over the
      datastore and the log of requests sent to it. *)

From Stdlib Require Import String Ascii List ZArith Bool Arith Lia.
From Stdlib Require Import DecimalString.
Import ListNotations.
Local Open Scope string_scope.
Local Open Scope list_scope.
Local Open Scope nat_scope.

Set Implicit Arguments.
Set Warnings "-register-all".

(* ================================================================= *)
(** ** Exceptions *)

Inductive Exn : Type :=
| TypeError (message : string)
| SyntaxError (message : string)
| Error (message : string).

Definition exn_message (e : Exn) : string :=
  match e with
  | TypeError m | SyntaxError m | Error m => m
  end.

Definition exn_name (e : Exn) : string :=
  match e with
  | TypeError _ => "TypeError"
  | SyntaxError _ => "SyntaxError"
  | Error _ => "Error"
  end.

Inductive Result (A : Type) : Type :=
| Ok (a : A)
| Throw (e : Exn).
Arguments Ok {A} a.
Arguments Throw {A} e.

Definition rbind {A B} (r : Result A) (k : A -> Result B) : Result B :=
  match r with
  | Ok a => k a
  | Throw e => Throw e
  end.

Declare Scope result_scope.
Delimit Scope result_scope with result.
Notation "x <- r ;; k" := (rbind r (fun x => k))
  (at level 61, r at next level, right associativity) : result_scope.


(* ================================================================= *)
(** ** Strings *)

Module JsString.

(** [\s] and the white space of [trim] and [parseInt], below 128:
    TAB, LF, VT, FF, CR and SP. *)
Definition is_space (c : ascii) : bool :=
  let n := nat_of_ascii c in
  ((9 <=? n) && (n <=? 13)) || (n =? 32).

Definition is_lower (c : ascii) : bool :=
  let n := nat_of_ascii c in (97 <=? n) && (n <=? 122).

Definition upper_char (c : ascii) : ascii :=
  if is_lower c then ascii_of_nat (nat_of_ascii c - 32) else c.

(** [String.prototype.toUpperCase]. *)
Fixpoint toUpperCase (s : string) : string :=
  match s with
  | EmptyString => EmptyString
  | String c r => String (upper_char c) (toUpperCase r)
  end.

Definition is_empty (s : string) : bool :=
  match s with EmptyString => true | String _ _ => false end.

Fixpoint trimStart (s : string) : string :=
  match s with
  | EmptyString => EmptyString
  | String c r => if is_space c then trimStart r else s
  end.

Fixpoint trimEnd (s : string) : string :=
  match s with
  | EmptyString => EmptyString
  | String c r =>
      let r' := trimEnd r in
      if is_space c && is_empty r' then EmptyString else String c r'
  end.

(** [String.prototype.trim]. *)
Definition trim (s : string) : string := trimEnd (trimStart s).

(** [s.slice(0, n)] for [0 <= n]. *)
Fixpoint slice0 (n : nat) (s : string) : string :=
  match n, s with
  | O, _ => EmptyString
  | _, EmptyString => EmptyString
  | S n', String c r => String c (slice0 n' r)
  end.

(** [s.replace(/[cls]+/g, repl)]: every maximal run of characters of
    the class is replaced by [repl]; [in_run] says that the character
    before the current one belonged to a run already replaced. *)
Fixpoint replace_runs (cls : ascii -> bool) (repl : string)
         (in_run : bool) (s : string) : string :=
  match s with
  | EmptyString => EmptyString
  | String c r =>
      if cls c then
        if in_run then replace_runs cls repl true r
        else (repl ++ replace_runs cls repl true r)%string
      else String c (replace_runs cls repl false r)
  end.

Fixpoint filter (keep : ascii -> bool) (s : string) : string :=
  match s with
  | EmptyString => EmptyString
  | String c r =>
      if keep c then String c (filter keep r) else filter keep r
  end.

Fixpoint forallb (p : ascii -> bool) (s : string) : bool :=
  match s with
  | EmptyString => true
  | String c r => p c && forallb p r
  end.

Definition truthy (s : string) : bool := negb (is_empty s).

(** [a || b] on strings. *)
Definition or_else (a b : string) : string :=
  if truthy a then a else b.

End JsString.
Import JsString.

(* ================================================================= *)
(** ** Numbers made by [parseInt] *)

(** [parseInt] only ever returns [NaN], an infinity or a double whose
    value is an integer; [Finite z] is the double of value [z] (both
    zeros are [Finite 0]: the program only compares with [> 0]). *)
Inductive Number : Type :=
| NaN
| Finite (z : Z)
| PosInfinity
| NegInfinity.

(** Rounding of a natural number to binary64, to nearest, ties to even;
    [None] is the overflow to infinity. *)
Definition round_binary64 (n : Z) : option Z :=
  let bits := (Z.log2 n + 1)%Z in
  if (bits <=? 53)%Z then Some n
  else
    let sh := (bits - 53)%Z in
    let q := Z.shiftr n sh in
    let r := (n - Z.shiftl q sh)%Z in
    let half := Z.shiftl 1 (sh - 1) in
    let q' := if ((half <? r) || ((r =? half) && Z.odd q))%Z
              then (q + 1)%Z else q in
    let v := Z.shiftl q' sh in
    if (2 ^ 1024 <=? v)%Z then None else Some v.

Definition number_of_int (negative : bool) (n : Z) : Number :=
  match round_binary64 n with
  | Some v => Finite (if negative then (- v)%Z else v)
  | None => if negative then NegInfinity else PosInfinity
  end.

Definition digit_value (c : ascii) : option Z :=
  let n := nat_of_ascii c in
  if (48 <=? n) && (n <=? 57) then Some (Z.of_nat (n - 48)) else None.

Definition is_digit (c : ascii) : bool :=
  match digit_value c with Some _ => true | None => false end.

(** The value of the longest prefix of decimal digits of [s], read
    after the digits of value [acc]. *)
Fixpoint read_digits (acc : Z) (s : string) : Z :=
  match s with
  | EmptyString => acc
  | String c r =>
      match digit_value c with
      | Some d => read_digits (10 * acc + d) r
      | None => acc
      end
  end.

Definition starts_with_digit (s : string) : bool :=
  match s with
  | EmptyString => false
  | String c _ => is_digit c
  end.

(** [Number.parseInt(s, 10)]: leading white space is skipped, one sign
    is read, then the longest run of decimal digits; no digit at all is
    [NaN]. *)
Definition parseInt10 (s : string) : Number :=
  let s1 := trimStart s in
  let '(negative, s2) :=
    match s1 with
    | String "-" r => (true, r)
    | String "+" r => (false, r)
    | _ => (false, s1)
    end in
  if starts_with_digit s2 then number_of_int negative (read_digits 0 s2)
  else NaN.

(** [Number.isFinite(parsed) && parsed > 0 ? parsed : null]. *)
Definition finite_positive (parsed : Number) : option Z :=
  match parsed with
  | Finite z => if (0 <? z)%Z then Some z else None
  | _ => None
  end.

(** The class [[\s_-]]. *)
Definition separator (c : ascii) : bool :=
  is_space c || Ascii.eqb c "_" || Ascii.eqb c "-".

(** [normalizeCatalog]:
    [input.toUpperCase().replace(/[\s_-]+/g, "")]. *)
Definition normalizeCatalog (input : string) : string :=
  replace_runs separator "" false (toUpperCase input).

(* ================================================================= *)
(** ** Values of type [unknown] *)

Inductive JsValue : Type :=
| JUndefined
| JNull
| JBool (b : bool)
| JNum (shown : string)
| JStr (s : string)
| JArr (elems : list JsValue)
| JObj (props : list (string * JsValue)).

Fixpoint own_property (props : list (string * JsValue)) (key : string)
  : option JsValue :=
  match props with
  | [] => None
  | (k, v) :: rest =>
      if String.eqb k key then Some v else own_property rest key
  end.

Definition has_own (props : list (string * JsValue)) (key : string)
  : bool :=
  match own_property props key with Some _ => true | None => false end.

Definition is_nullish (v : JsValue) : bool :=
  match v with JUndefined | JNull => true | _ => false end.

(** [v ?? d]. *)
Definition nullish_or (v d : JsValue) : JsValue :=
  if is_nullish v then d else v.

(** [v.key] for the property names this program reads ([customer],
    [items], [brand], [save], ...): none of them is a property of a
    prototype, so only an object's own properties answer; reading a
    property of [null] or [undefined] throws. *)
Definition get (v : JsValue) (key : string) : Result JsValue :=
  match v with
  | JUndefined =>
      Throw (TypeError ("Cannot read properties of undefined (reading '"
                          ++ key ++ "')")%string)
  | JNull =>
      Throw (TypeError ("Cannot read properties of null (reading '"
                          ++ key ++ "')")%string)
  | JObj props =>
      Ok match own_property props key with
         | Some x => x
         | None => JUndefined
         end
  | _ => Ok JUndefined
  end.

(** [v?.key]. *)
Definition get_opt (v : JsValue) (key : string) : JsValue :=
  match v with
  | JObj props =>
      match own_property props key with
      | Some x => x
      | None => JUndefined
      end
  | _ => JUndefined
  end.

(** [Boolean(v)]. *)
Definition Boolean (v : JsValue) : bool :=
  match v with
  | JUndefined | JNull => false
  | JBool b => b
  | JNum shown =>
      negb (String.eqb shown "0" || String.eqb shown "NaN")
  | JStr s => truthy s
  | JArr _ | JObj _ => true
  end.

Section Join.

Variable A : Type.
Variable is_blank : A -> bool.
Variable element : A -> Result string.

(** [Array.prototype.join] with the separator [","]: the elements
    are converted from left to right, [null] and [undefined] give
    the empty string, and the first exception ends the conversion. *)
Fixpoint join (first : bool) (l : list A) : Result string :=
  match l with
  | [] => Ok ""
  | x :: rest =>
      (sx <- (if is_blank x then Ok "" else element x) ;;
       sr <- join false rest ;;
       Ok ((if first then "" else ",") ++ sx ++ sr)%string)%result
  end.

End Join.

(** [String(v)].  An array is joined with commas.  An object of
    [JSON.parse] has [Object.prototype] as its prototype: it prints as
    ["[object Object]"], unless it has an own property [toString]; that
    property is data, not a function, so the conversion falls through
    to [valueOf] (own and not callable, or inherited and returning the
    object itself) and throws. *)
Fixpoint ToString (v : JsValue) : Result string :=
  match v with
  | JUndefined => Ok "undefined"
  | JNull => Ok "null"
  | JBool true => Ok "true"
  | JBool false => Ok "false"
  | JNum shown => Ok shown
  | JStr s => Ok s
  | JArr elems => join is_nullish ToString true elems
  | JObj props =>
      if has_own props "toString"
      then Throw (TypeError "Cannot convert object to primitive value")
      else Ok "[object Object]"
  end.

(* ================================================================= *)
(** ** The normaliser *)

(** [text(input, fallback)]. *)
Definition text (input : JsValue) (fallback : string) : Result string :=
  (s <- ToString (nullish_or input (JStr "")) ;;
   Ok (or_else (trim s) fallback))%result.

(** [maybeText(input)]. *)
Definition maybeText (input : JsValue) : Result (option string) :=
  (s <- ToString (nullish_or input (JStr "")) ;;
   let v := trim s in
   Ok (if truthy v then Some v else None))%result.

(** [asQty(input)]. *)
Definition asQty (input : JsValue) : Result (option Z) :=
  (s <- ToString (nullish_or input (JStr "")) ;;
   Ok (finite_positive (parseInt10 (trim s))))%result.

(** [text] on a value that is a string or [undefined] (an environment
    variable, a request header): it cannot throw. *)
Definition text_env (input : option string) (fallback : string) : string :=
  or_else (trim match input with Some s => s | None => "" end) fallback.

Record DraftLine : Type := {
  brandInputUpper : string;
  catalogUpper : string;
  normalizedCatalog : string;
  quantity : Z
}.

Record Draft : Type := {
  customer_name : string;
  customer_country : string;
  billing_address : option string;
  contact_person : option string;
  contact_phone : option string;
  contact_email : option string;
  delivery_company_name : option string;
  delivery_address : option string;
  delivery_contact_person : option string;
  delivery_phone : option string;
  delivery_email : option string;
  lines : list DraftLine
}.

(** The callback of [items.map]: [null] is [None]. *)
Definition line_of_item (line : JsValue) : Result (option DraftLine) :=
  (b <- get line "brand" ;;
   brand <- text b "" ;;
   c <- get line "catalog_number" ;;
   catalog <- text c "" ;;
   q <- get line "quantity" ;;
   qty <- asQty q ;;
   Ok (if negb (truthy brand) || negb (truthy catalog) then None
       else match qty with
            | None => None
            | Some n =>
                Some {| brandInputUpper := toUpperCase brand;
                        catalogUpper := toUpperCase catalog;
                        normalizedCatalog := normalizeCatalog catalog;
                        quantity := n |}
            end))%result.

(** [xs.map(f)] for a callback that can throw: the first exception
    ends the traversal. *)
Fixpoint map_result {A B} (f : A -> Result B) (xs : list A)
  : Result (list B) :=
  match xs with
  | [] => Ok []
  | x :: rest =>
      (y <- f x ;; ys <- map_result f rest ;; Ok (y :: ys))%result
  end.

(** [xs.filter(v => Boolean(v))] on a list of lines and [null]s. *)
Fixpoint filter_present {A} (xs : list (option A)) : list A :=
  match xs with
  | [] => []
  | Some a :: rest => a :: filter_present rest
  | None :: rest => filter_present rest
  end.

(** [Array.isArray(v) ? v : []]. *)
Definition array_or_empty (v : JsValue) : list JsValue :=
  match v with JArr elems => elems | _ => [] end.

Definition transformAiToDraft (ai : JsValue) : Result Draft :=
  (c <- get ai "customer" ;;
   let customer := nullish_or c (JObj []) in
   d <- get ai "delivery" ;;
   let delivery := nullish_or d (JObj []) in
   i <- get ai "items" ;;
   let items := array_or_empty i in
   f1 <- (x <- get customer "name" ;; text x "") ;;
   f2 <- (x <- get customer "country" ;; text x "") ;;
   f3 <- (x <- get customer "billing_address" ;; maybeText x) ;;
   f4 <- (x <- get customer "contact_person" ;; maybeText x) ;;
   f5 <- (x <- get customer "contact_phone" ;; maybeText x) ;;
   f6 <- (x <- get customer "contact_email" ;; maybeText x) ;;
   f7 <- (x <- get delivery "company_name" ;; maybeText x) ;;
   f8 <- (x <- get delivery "address" ;; maybeText x) ;;
   f9 <- (x <- get delivery "contact_person" ;; maybeText x) ;;
   f10 <- (x <- get delivery "phone" ;; maybeText x) ;;
   f11 <- (x <- get delivery "email" ;; maybeText x) ;;
   mapped <- map_result line_of_item items ;;
   Ok {| customer_name := f1;
         customer_country := f2;
         billing_address := f3;
         contact_person := f4;
         contact_phone := f5;
         contact_email := f6;
         delivery_company_name := f7;
         delivery_address := f8;
         delivery_contact_person := f9;
         delivery_phone := f10;
         delivery_email := f11;
         lines := filter_present mapped |})%result.

(* ================================================================= *)
(** ** The datastore *)

Definition Id := string.

(** A row as the store keeps it: the identifier the store gave it and
    the columns the insert supplied. *)
Record Stored (P : Type) : Type := { row_id : Id; row : P }.

Module Inquiry.
Record t : Type := {
  user_id : string;
  status : string;
  customer_name : string;
  customer_country : string;
  billing_address : option string;
  contact_person : option string;
  contact_phone : option string;
  contact_email : option string
}.
End Inquiry.

Module InquiryItem.
Record t : Type := {
  inquiry_id : Id;
  user_id : string;
  brand : string;
  catalog_number : string;
  normalized_catalog_number : string;
  quantity : Z
}.
End InquiryItem.

Module Quotation.
Record template : Type := {
  shipment_company_name : string;
  shipment_address : string;
  shipment_recipient : string;
  shipment_phone : string;
  shipment_email : string
}.
Record t : Type := {
  inquiry_id : Id;
  user_id : string;
  status : string;
  template_meta : template
}.
End Quotation.

Inductive MatchStatus : Type := matched | not_found.

Module QuotationItem.
Record t : Type := {
  quotation_id : Id;
  inquiry_item_id : Id;
  user_id : string;
  brand : string;
  catalog_number : string;
  normalized_catalog_number : string;
  quantity : Z;
  price_list_id : option Id;
  match_status : MatchStatus;
  brand_input : string;
  brand_standard : string
}.
End QuotationItem.

Module BrandAlias.
Record t : Type := { alias : string; standard_brand : string }.
End BrandAlias.

Module PriceList.
Record t : Type := {
  id : Id;
  brand : string;
  normalized_catalog_number : string
}.
End PriceList.

Record Store : Type := {
  inquiries : list (Stored Inquiry.t);
  inquiry_items : list (Stored InquiryItem.t);
  quotations : list (Stored Quotation.t);
  quotation_items : list (Stored QuotationItem.t);
  brand_alias : list BrandAlias.t;
  price_list : list PriceList.t;
  next_id : nat
}.

Inductive Table : Type :=
| T_inquiries
| T_inquiry_items
| T_quotations
| T_quotation_items
| T_brand_alias
| T_price_list.

Definition table_eqb (a b : Table) : bool :=
  match a, b with
  | T_inquiries, T_inquiries
  | T_inquiry_items, T_inquiry_items
  | T_quotations, T_quotations
  | T_quotation_items, T_quotation_items
  | T_brand_alias, T_brand_alias
  | T_price_list, T_price_list => true
  | _, _ => false
  end.

(** What the store's interface offers; the program never asks for a
    [Delete]. *)
Inductive Request : Type :=
| Insert (t : Table)
| Select (t : Table)
| Delete (t : Table).

Definition request_table (r : Request) : Table :=
  match r with Insert t | Select t | Delete t => t end.

Record PostgrestError : Type := { message : string }.

(** [{ data, error }]. *)
Record Response (D : Type) : Type := {
  data : option D;
  error : option PostgrestError
}.

(** The datastore and the requests sent to it so far, oldest first. *)
Record World : Type := { store : Store; wire : list Request }.

(** The client [createClient] returns has sent nothing yet. *)
Definition connect (s : Store) : World := {| store := s; wire := [] |}.

(** What goes wrong: the request number [k] (from 0) that a client
    sends to table [t] fails with [faults t k] when that is an error. *)
Definition Faults := Table -> nat -> option PostgrestError.

Definition no_faults : Faults := fun _ _ => None.

(** How many requests the table [t] has received. *)
Definition attempts (t : Table) (w : World) : nat :=
  length (List.filter (fun r => table_eqb (request_table r) t) (wire w)).

Definition fresh_id (n : nat) : Id :=
  NilZero.string_of_uint (Nat.to_uint n).

(** State of the world and exceptions: a [Throw] keeps the world as it
    was when the exception was raised. *)
Definition IO (A : Type) : Type := World -> Result A * World.

Definition ret {A} (a : A) : IO A := fun w => (Ok a, w).

Definition throw {A} (e : Exn) : IO A := fun w => (Throw e, w).

Definition bind {A B} (m : IO A) (k : A -> IO B) : IO B :=
  fun w =>
    match m w with
    | (Ok a, w') => k a w'
    | (Throw e, w') => (Throw e, w')
    end.

Definition lift {A} (r : Result A) : IO A := fun w => (r, w).

Declare Scope io_scope.
Delimit Scope io_scope with io.
Notation "x <- m ;; k" := (bind m (fun x => k))
  (at level 61, m at next level, right associativity) : io_scope.

Definition sent (r : Request) (w : World) : World :=
  {| store := store w; wire := wire w ++ [r] |}.

Definition add_inquiry (r : Stored Inquiry.t) (s : Store) : Store :=
  {| inquiries := inquiries s ++ [r];
     inquiry_items := inquiry_items s;
     quotations := quotations s;
     quotation_items := quotation_items s;
     brand_alias := brand_alias s;
     price_list := price_list s;
     next_id := S (next_id s) |}.

Definition add_inquiry_item (r : Stored InquiryItem.t) (s : Store)
  : Store :=
  {| inquiries := inquiries s;
     inquiry_items := inquiry_items s ++ [r];
     quotations := quotations s;
     quotation_items := quotation_items s;
     brand_alias := brand_alias s;
     price_list := price_list s;
     next_id := S (next_id s) |}.

Definition add_quotation (r : Stored Quotation.t) (s : Store) : Store :=
  {| inquiries := inquiries s;
     inquiry_items := inquiry_items s;
     quotations := quotations s ++ [r];
     quotation_items := quotation_items s;
     brand_alias := brand_alias s;
     price_list := price_list s;
     next_id := S (next_id s) |}.

Definition add_quotation_item (r : Stored QuotationItem.t) (s : Store)
  : Store :=
  {| inquiries := inquiries s;
     inquiry_items := inquiry_items s;
     quotations := quotations s;
     quotation_items := quotation_items s ++ [r];
     brand_alias := brand_alias s;
     price_list := price_list s;
     next_id := S (next_id s) |}.

Section Service.

Variable faults : Faults.

(** [service.from(t).insert(payload).select("id").single()]: one
    write; on a fault nothing is written and the error comes back,
    otherwise the row is appended under a fresh identifier, which is
    returned. *)
Definition insert {P} (t : Table)
           (add : Stored P -> Store -> Store) (payload : P)
  : IO (Response Id) :=
  fun w =>
    let w1 := sent (Insert t) w in
    match faults t (attempts t w) with
    | Some e => (Ok {| data := None; error := Some e |}, w1)
    | None =>
        let i := fresh_id (next_id (store w)) in
        (Ok {| data := Some i; error := None |},
         {| store := add {| row_id := i; row := payload |} (store w);
            wire := wire w1 |})
    end.

(** [service.from("brand_alias").select("standard_brand")
    .eq("alias", a).limit(1).maybeSingle()]: the first row whose alias
    is [a], if there is one. *)
Definition select_brand_alias (a : string) : IO (Response string) :=
  fun w =>
    let w1 := sent (Select T_brand_alias) w in
    match faults T_brand_alias (attempts T_brand_alias w) with
    | Some e => (Ok {| data := None; error := Some e |}, w1)
    | None =>
        (Ok {| data :=
                 option_map BrandAlias.standard_brand
                   (find (fun r => String.eqb (BrandAlias.alias r) a)
                         (brand_alias (store w)));
               error := None |}, w1)
    end.

Definition price_matches (b c : string) (s : Store)
  : list PriceList.t :=
  List.filter
    (fun r => String.eqb (PriceList.brand r) b
              && String.eqb (PriceList.normalized_catalog_number r) c)
    (price_list s).

(** [service.from("price_list").select("id").eq("brand", b)
    .eq("normalized_catalog_number", c).maybeSingle()]: no row is no
    data and no error, one row is that row, several rows are an
    error. *)
Definition select_price_list (b c : string) : IO (Response Id) :=
  fun w =>
    let w1 := sent (Select T_price_list) w in
    match faults T_price_list (attempts T_price_list w) with
    | Some e => (Ok {| data := None; error := Some e |}, w1)
    | None =>
        match price_matches b c (store w) with
        | [] => (Ok {| data := None; error := None |}, w1)
        | [r] =>
            (Ok {| data := Some (PriceList.id r); error := None |}, w1)
        | _ :: _ :: _ =>
            (Ok {| data := None;
                   error := Some {| message :=
                     "JSON object requested, multiple (or no) rows returned"
                   |} |}, w1)
        end
    end.

(** [resolveBrand(service, brandInputUpper)]. *)
Definition resolveBrand (brandInputUpper : string) : IO string :=
  (r <- select_brand_alias brandInputUpper ;;
   match data r with
   | None => ret brandInputUpper
   | Some standard_brand =>
       v <- lift (text (JStr standard_brand) brandInputUpper) ;;
       ret (toUpperCase v)
   end)%io.

End Service.

(* ================================================================= *)
(** ** Persistence *)

(** [process.env]: a variable is a string or is not set. *)
Record ProcessEnv : Type := {
  SUPABASE_URL : option string;
  SUPABASE_SERVICE_ROLE_KEY : option string;
  SANDBOX_OWNER_USER_ID : option string;
  SANDBOX_ENDPOINT_TOKEN : option string
}.

(** An element of the array [inquiryItems]. *)
Module SavedItem.
Record t : Type := {
  id : Id;
  brandInputUpper : string;
  brandStandard : string;
  catalogUpper : string;
  normalizedCatalog : string;
  quantity : Z
}.
End SavedItem.

Record SavedIds : Type := { inquiryId : Id; quotationId : Id }.

(** [err?.message || "unknown"]. *)
Definition message_or_unknown (e : option PostgrestError) : string :=
  or_else match e with Some x => message x | None => "" end "unknown".

(** [v ?? ""] on a string or [null]. *)
Definition or_blank (v : option string) : string :=
  match v with Some s => s | None => "" end.

Section Persist.

Variable env : ProcessEnv.
Variable faults : Faults.

Definition inquiry_payload (userId : string) (draft : Draft)
  : Inquiry.t :=
  {| Inquiry.user_id := userId;
     Inquiry.status := "draft";
     Inquiry.customer_name := customer_name draft;
     Inquiry.customer_country := customer_country draft;
     Inquiry.billing_address := billing_address draft;
     Inquiry.contact_person := contact_person draft;
     Inquiry.contact_phone := contact_phone draft;
     Inquiry.contact_email := contact_email draft |}.

Definition inquiry_item_payload (inquiry : Id) (userId : string)
           (brandStandard : string) (line : DraftLine)
  : InquiryItem.t :=
  {| InquiryItem.inquiry_id := inquiry;
     InquiryItem.user_id := userId;
     InquiryItem.brand := brandStandard;
     InquiryItem.catalog_number := catalogUpper line;
     InquiryItem.normalized_catalog_number := normalizedCatalog line;
     InquiryItem.quantity := quantity line |}.

Definition saved_item (i : Id) (brandStandard : string)
           (line : DraftLine) : SavedItem.t :=
  {| SavedItem.id := i;
     SavedItem.brandInputUpper := brandInputUpper line;
     SavedItem.brandStandard := brandStandard;
     SavedItem.catalogUpper := catalogUpper line;
     SavedItem.normalizedCatalog := normalizedCatalog line;
     SavedItem.quantity := quantity line |}.

Definition quotation_payload (inquiry : Id) (userId : string)
           (draft : Draft) : Quotation.t :=
  {| Quotation.inquiry_id := inquiry;
     Quotation.user_id := userId;
     Quotation.status := "draft";
     Quotation.template_meta :=
       {| Quotation.shipment_company_name :=
            or_blank (delivery_company_name draft);
          Quotation.shipment_address :=
            or_blank (delivery_address draft);
          Quotation.shipment_recipient :=
            or_blank (delivery_contact_person draft);
          Quotation.shipment_phone := or_blank (delivery_phone draft);
          Quotation.shipment_email := or_blank (delivery_email draft)
       |} |}.

(** [hit] is the [data] of the price-list lookup: the identifier of
    the row found, or [null]. *)
Definition quotation_item_payload (quotation : Id) (userId : string)
           (hit : option Id) (item : SavedItem.t) : QuotationItem.t :=
  {| QuotationItem.quotation_id := quotation;
     QuotationItem.inquiry_item_id := SavedItem.id item;
     QuotationItem.user_id := userId;
     QuotationItem.brand := SavedItem.brandStandard item;
     QuotationItem.catalog_number := SavedItem.catalogUpper item;
     QuotationItem.normalized_catalog_number :=
       SavedItem.normalizedCatalog item;
     QuotationItem.quantity := SavedItem.quantity item;
     QuotationItem.price_list_id := hit;
     QuotationItem.match_status :=
       match hit with
       | Some i => if truthy i then matched else not_found
       | None => not_found
       end;
     QuotationItem.brand_input := SavedItem.brandInputUpper item;
     QuotationItem.brand_standard := SavedItem.brandStandard item |}.

(** The loop [for (const line of draft.lines)]; [inquiryItems] is the
    array filled so far. *)
Fixpoint save_lines (inquiry : Id) (userId : string)
         (todo : list DraftLine) (inquiryItems : list SavedItem.t)
  : IO (list SavedItem.t) :=
  match todo with
  | [] => ret inquiryItems
  | line :: rest =>
      (brandStandard <- resolveBrand faults (brandInputUpper line) ;;
       r <- insert faults T_inquiry_items add_inquiry_item
              (inquiry_item_payload inquiry userId brandStandard line) ;;
       match error r, data r with
       | None, Some inquiryItem =>
           save_lines inquiry userId rest
             (inquiryItems ++ [saved_item inquiryItem brandStandard line])
       | e, _ =>
           throw (Error ("Create inquiry item failed: "
                           ++ message_or_unknown e)%string)
       end)%io
  end.

(** The loop [for (const item of inquiryItems)].  The lookup's [error]
    is not read; the insert asks for no row back and only its [error]
    is read. *)
Fixpoint save_quotation_items (quotation : Id) (userId : string)
         (todo : list SavedItem.t) : IO unit :=
  match todo with
  | [] => ret tt
  | item :: rest =>
      (h <- select_price_list faults (SavedItem.brandStandard item)
              (SavedItem.normalizedCatalog item) ;;
       r <- insert faults T_quotation_items add_quotation_item
              (quotation_item_payload quotation userId (data h) item) ;;
       match error r with
       | Some e =>
           throw (Error ("Create quotation item failed: "
                           ++ message e)%string)
       | None => save_quotation_items quotation userId rest
       end)%io
  end.

(** [saveDraftToSupabase(draft)], run by the client of [connect]. *)
Definition saveDraftToSupabase (draft : Draft) : IO SavedIds :=
  let url := text_env (SUPABASE_URL env) "" in
  let key := text_env (SUPABASE_SERVICE_ROLE_KEY env) "" in
  let userId := text_env (SANDBOX_OWNER_USER_ID env) "" in
  if negb (truthy url) || negb (truthy key) || negb (truthy userId)
  then throw (Error
    "Missing SUPABASE_URL/SUPABASE_SERVICE_ROLE_KEY/SANDBOX_OWNER_USER_ID")
  else if (length (lines draft) =? 0)
  then throw (Error "No valid lines to save.")
  else
    (ri <- insert faults T_inquiries add_inquiry
             (inquiry_payload userId draft) ;;
     match error ri, data ri with
     | None, Some inquiry =>
         inquiryItems <- save_lines inquiry userId (lines draft) [] ;;
         rq <- insert faults T_quotations add_quotation
                 (quotation_payload inquiry userId draft) ;;
         match error rq, data rq with
         | None, Some quotation =>
             _ <- save_quotation_items quotation userId inquiryItems ;;
             ret {| inquiryId := inquiry; quotationId := quotation |}
         | e, _ =>
             throw (Error ("Create quotation failed: "
                             ++ message_or_unknown e)%string)
         end
     | e, _ =>
         throw (Error ("Create inquiry failed: "
                         ++ message_or_unknown e)%string)
     end)%io.

End Persist.

Definition demo_env : ProcessEnv :=
  {| SUPABASE_URL := Some "https://db.example";
     SUPABASE_SERVICE_ROLE_KEY := Some "service-key";
     SANDBOX_OWNER_USER_ID := Some "owner-1";
     SANDBOX_ENDPOINT_TOKEN := None |}.

Definition demo_store : Store :=
  {| inquiries := []; inquiry_items := []; quotations := [];
     quotation_items := [];
     brand_alias := [ {| BrandAlias.alias := "ABCCO";
                         BrandAlias.standard_brand := "ABC CORP" |} ];
     price_list := [ {| PriceList.id := "p-1";
                        PriceList.brand := "ABC CORP";
                        PriceList.normalized_catalog_number := "XY100" |} ];
     next_id := 1 |}.

Definition demo_line (b c : string) (q : Z) : DraftLine :=
  {| brandInputUpper := b; catalogUpper := c;
     normalizedCatalog := normalizeCatalog c; quantity := q |}.

Definition demo_draft (ls : list DraftLine) : Draft :=
  {| customer_name := "Acme"; customer_country := "";
     billing_address := None; contact_person := None;
     contact_phone := None; contact_email := None;
     delivery_company_name := None; delivery_address := None;
     delivery_contact_person := None; delivery_phone := None;
     delivery_email := None; lines := ls |}.

(* ================================================================= *)
(** ** The request handler *)

Module Mail.
(** What [pullLatestEmail] returns. *)
Record t : Type := {
  uid : Z;
  messageId : string;
  subject : string;
  subjectNorm : string;
  from : string;
  text : string;
  date : string
}.

(** The [mail] member of the answer. *)
Record summary : Type := {
  s_uid : Z;
  s_messageId : string;
  s_subject : string;
  s_subjectNorm : string;
  s_from : string;
  textPreview : string
}.
End Mail.

Module Ai.
(** The argument of [aiExtract]. *)
Record input : Type := {
  subject : string;
  from : string;
  text : string
}.

(** What [aiExtract] returns. *)
Record t : Type := { model : string; json : JsValue; raw : string }.
End Ai.

Record HttpRequest : Type := {
  method : string;
  x_sandbox_token : option string;
  body : JsValue
}.

(** The answers of [handler]: 405, 401, the 200 answer with its
    members, and the 500 answer with the error text and name (the
    members [code] and [stack] of [details] are left out). *)
Inductive HttpResponse : Type :=
| MethodNotAllowed
| Unauthorized
| Success (save : bool) (mail : Mail.summary) (ai_model : string)
          (ai_json : JsValue) (transformed : Draft)
          (saved : option SavedIds)
| Failure (error_text : string) (name : string).

Section Handler.

Variable env : ProcessEnv.
Variable faults : Faults.

(** The collaborators outside this file's scope, by what they give
    back: [JSON.parse], the mailbox and the extraction service. *)
Variable JSON_parse : string -> Result JsValue.
Variable pullLatestEmail : Result Mail.t.
Variable aiExtract : Ai.input -> Result Ai.t.

(** [unauthorized(req, res)]: [true] when the 401 answer was sent. *)
Definition unauthorized (req : HttpRequest) : bool :=
  let token := text_env (SANDBOX_ENDPOINT_TOKEN env) "" in
  if negb (truthy token) then false
  else
    let got := text_env (x_sandbox_token req) "" in
    if String.eqb got token then false else true.

(** [typeof req.body === "string" ? JSON.parse(req.body)
    : req.body ?? {}]. *)
Definition request_body (req : HttpRequest) : Result JsValue :=
  match body req with
  | JStr s => JSON_parse s
  | b => Ok (nullish_or b (JObj []))
  end.

(** [Boolean(body?.save)]. *)
Definition save_flag (b : JsValue) : bool := Boolean (get_opt b "save").

Definition mail_summary (mail : Mail.t) : Mail.summary :=
  {| Mail.s_uid := Mail.uid mail;
     Mail.s_messageId := Mail.messageId mail;
     Mail.s_subject := Mail.subject mail;
     Mail.s_subjectNorm := Mail.subjectNorm mail;
     Mail.s_from := Mail.from mail;
     Mail.textPreview := slice0 800 (Mail.text mail) |}.

(** The body of the [try] block. *)
Definition run : HttpRequest -> IO HttpResponse := fun req =>
  (b <- lift (request_body req) ;;
   let save := save_flag b in
   mail <- lift pullLatestEmail ;;
   ai <- lift (aiExtract {| Ai.subject := Mail.subject mail;
                            Ai.from := Mail.from mail;
                            Ai.text := Mail.text mail |}) ;;
   draft <- lift (transformAiToDraft (Ai.json ai)) ;;
   saved <- (if save
             then (ids <- saveDraftToSupabase env faults draft ;;
                   ret (Some ids))
             else ret None) ;;
   ret (Success save (mail_summary mail) (Ai.model ai) (Ai.json ai)
                draft saved))%io.

(** [handler(req, res)]: the answer sent and the world afterwards. *)
Definition handler (req : HttpRequest) (w : World)
  : HttpResponse * World :=
  if negb (String.eqb (method req) "POST") then (MethodNotAllowed, w)
  else if unauthorized req then (Unauthorized, w)
  else
    match run req w with
    | (Ok answer, w') => (answer, w')
    | (Throw err, w') =>
        (Failure (or_else (exn_message err) (exn_name err))
                 (exn_name err), w')
    end.

End Handler.

(* ================================================================= *)
(** ** Vocabulary of the properties *)


(** A field "after string coercion and trimming":
    [String(input ?? "").trim()]. *)
Definition coerced (input : JsValue) : Result string :=
  (s <- ToString (nullish_or input (JStr "")) ;; Ok (trim s))%result.

(** The line an item stands for when its three fields, coerced, are a
    non-empty brand, a non-empty catalog and a text that [parseInt]
    reads as an integer above zero. *)
Definition survives_as (it : JsValue) (l : DraftLine) : Prop :=
  exists vb vc vq b c q n,
    get it "brand" = Ok vb /\ get it "catalog_number" = Ok vc /\
    get it "quantity" = Ok vq /\
    coerced vb = Ok b /\ coerced vc = Ok c /\ coerced vq = Ok q /\
    b <> "" /\ c <> "" /\
    parseInt10 q = Finite n /\ (0 < n)%Z /\
    l = {| brandInputUpper := toUpperCase b;
           catalogUpper := toUpperCase c;
           normalizedCatalog := normalizeCatalog c;
           quantity := n |}.

Definition valid_line (l : DraftLine) : Prop :=
  brandInputUpper l <> "" /\ catalogUpper l <> "" /\
  (0 < quantity l)%Z.

(** [String] does not throw on [v]: no object with an own property
    [toString] is reached through arrays. *)
Fixpoint printable (v : JsValue) : bool :=
  match v with
  | JArr elems => List.forallb printable elems
  | JObj props => negb (has_own props "toString")
  | _ => true
  end.

Definition fields_printable (obj : JsValue) (keys : list string) : bool :=
  List.forallb (fun k => printable (get_opt obj k)) keys.

(** An extraction the normaliser can read: it is not [null], no
    element of its item list is [null], and the fields that are
    coerced to text are printable. *)
Definition readable (ai : JsValue) : bool :=
  negb (is_nullish ai)
  && fields_printable (nullish_or (get_opt ai "customer") (JObj []))
       ["name"; "country"; "billing_address"; "contact_person";
        "contact_phone"; "contact_email"]
  && fields_printable (nullish_or (get_opt ai "delivery") (JObj []))
       ["company_name"; "address"; "contact_person"; "phone"; "email"]
  && List.forallb
       (fun it => negb (is_nullish it)
                  && fields_printable it
                       ["brand"; "catalog_number"; "quantity"])
       (array_or_empty (get_opt ai "items")).

(** The item [{ brand, catalog_number, quantity }]. *)
Definition item (brand catalog qty : JsValue) : JsValue :=
  JObj [("brand", brand); ("catalog_number", catalog); ("quantity", qty)].

(** The items of an extraction, as the normaliser takes them. *)
Definition items_of (ai : JsValue) : list JsValue :=
  array_or_empty (get_opt ai "items").



(** The configuration [saveDraftToSupabase] asks for is there. *)
Definition configured (env : ProcessEnv) : Prop :=
  text_env (SUPABASE_URL env) "" <> ""
  /\ text_env (SUPABASE_SERVICE_ROLE_KEY env) "" <> ""
  /\ text_env (SANDBOX_OWNER_USER_ID env) "" <> "".

Definition owner (env : ProcessEnv) : string :=
  text_env (SANDBOX_OWNER_USER_ID env) "".

(** The alias row a healthy lookup of [input] returns (the first
    one), and the brand [resolveBrand] makes of it. *)
Definition alias_row (aliases : list BrandAlias.t) (input : string)
  : option BrandAlias.t :=
  find (fun r => String.eqb (BrandAlias.alias r) input) aliases.

Definition brand_of_alias (r : BrandAlias.t) (input : string) : string :=
  toUpperCase (or_else (trim (BrandAlias.standard_brand r)) input).

Definition resolve_in (aliases : list BrandAlias.t) (input : string)
  : string :=
  match alias_row aliases input with
  | Some r => brand_of_alias r input
  | None => input
  end.

Section Trace.

Variable faults : Faults.
Variable userId : string.

(** What one turn of the first loop does when its insert is
    accepted: the brand it resolves in the world [w], the row it
    writes, the element it pushes and the world it leaves. *)
Definition resolved_brand (w : World) (input : string) : string :=
  match faults T_brand_alias (attempts T_brand_alias w) with
  | Some _ => input
  | None => resolve_in (brand_alias (store w)) input
  end.

Definition line_row (inquiry : Id) (w : World) (line : DraftLine)
  : Stored InquiryItem.t :=
  {| row_id := fresh_id (next_id (store w));
     row := inquiry_item_payload inquiry userId
              (resolved_brand w (brandInputUpper line)) line |}.

Definition line_saved (w : World) (line : DraftLine) : SavedItem.t :=
  saved_item (fresh_id (next_id (store w)))
             (resolved_brand w (brandInputUpper line)) line.

Definition after_line (inquiry : Id) (w : World) (line : DraftLine)
  : World :=
  {| store := add_inquiry_item (line_row inquiry w line) (store w);
     wire := wire w ++ [Select T_brand_alias; Insert T_inquiry_items] |}.

Fixpoint after_lines (inquiry : Id) (w : World) (ls : list DraftLine)
  : World :=
  match ls with
  | [] => w
  | l :: rest => after_lines inquiry (after_line inquiry w l) rest
  end.

Fixpoint rows_of_lines (inquiry : Id) (w : World)
         (ls : list DraftLine) : list (Stored InquiryItem.t) :=
  match ls with
  | [] => []
  | l :: rest =>
      line_row inquiry w l
      :: rows_of_lines inquiry (after_line inquiry w l) rest
  end.

Fixpoint saved_of_lines (inquiry : Id) (w : World)
         (ls : list DraftLine) : list SavedItem.t :=
  match ls with
  | [] => []
  | l :: rest =>
      line_saved w l
      :: saved_of_lines inquiry (after_line inquiry w l) rest
  end.

(** The same for one turn of the second loop. *)
Definition price_hit (w : World) (it : SavedItem.t) : option Id :=
  match faults T_price_list (attempts T_price_list w) with
  | Some _ => None
  | None =>
      match price_matches (SavedItem.brandStandard it)
                          (SavedItem.normalizedCatalog it) (store w) with
      | [r] => Some (PriceList.id r)
      | _ => None
      end
  end.

Definition item_row (quotation : Id) (w : World) (it : SavedItem.t)
  : Stored QuotationItem.t :=
  {| row_id := fresh_id (next_id (store w));
     row := quotation_item_payload quotation userId (price_hit w it) it
  |}.

Definition after_item (quotation : Id) (w : World) (it : SavedItem.t)
  : World :=
  {| store := add_quotation_item (item_row quotation w it) (store w);
     wire := wire w ++ [Select T_price_list; Insert T_quotation_items]
  |}.

Fixpoint after_items (quotation : Id) (w : World)
         (its : list SavedItem.t) : World :=
  match its with
  | [] => w
  | it :: rest => after_items quotation (after_item quotation w it) rest
  end.

Fixpoint rows_of_items (quotation : Id) (w : World)
         (its : list SavedItem.t) : list (Stored QuotationItem.t) :=
  match its with
  | [] => []
  | it :: rest =>
      item_row quotation w it
      :: rows_of_items quotation (after_item quotation w it) rest
  end.

End Trace.

(** The row [r] is the InquiryItem of the line [line]. *)
Definition item_for_line (line : DraftLine) (r : Stored InquiryItem.t)
  : Prop :=
  InquiryItem.catalog_number (row r) = catalogUpper line
  /\ InquiryItem.normalized_catalog_number (row r)
     = normalizedCatalog line
  /\ InquiryItem.quantity (row r) = quantity line.




(** The requests of the first loop over [n] lines, and of the second
    loop over [n] items. *)
Fixpoint line_requests (n : nat) : list Request :=
  match n with
  | O => []
  | S n' => Select T_brand_alias :: Insert T_inquiry_items
            :: line_requests n'
  end.

Fixpoint item_requests (n : nat) : list Request :=
  match n with
  | O => []
  | S n' => Select T_price_list :: Insert T_quotation_items
            :: item_requests n'
  end.

(** The worlds the persistence chain goes through when every insert
    is accepted: after the Inquiry, after the first loop, after the
    Quotation, after the second loop. *)
Section Chain.

Variable faults : Faults.
Variable env : ProcessEnv.
Variable draft : Draft.
Variable s : Store.

Definition new_inquiry : Stored Inquiry.t :=
  {| row_id := fresh_id (next_id s);
     row := inquiry_payload (owner env) draft |}.

Definition with_inquiry : World :=
  {| store := add_inquiry new_inquiry s; wire := [Insert T_inquiries] |}.

Definition with_lines (ls : list DraftLine) : World :=
  after_lines faults (owner env) (row_id new_inquiry) with_inquiry ls.

Definition new_items (ls : list DraftLine)
  : list (Stored InquiryItem.t) :=
  rows_of_lines faults (owner env) (row_id new_inquiry) with_inquiry ls.

Definition new_quotation : Stored Quotation.t :=
  {| row_id := fresh_id (next_id (store (with_lines (lines draft))));
     row := quotation_payload (row_id new_inquiry) (owner env) draft |}.

Definition with_quotation : World :=
  {| store := add_quotation new_quotation
                (store (with_lines (lines draft)));
     wire := wire (with_lines (lines draft)) ++ [Insert T_quotations] |}.

Definition pushed_items : list SavedItem.t :=
  saved_of_lines faults (owner env) (row_id new_inquiry) with_inquiry
                 (lines draft).



End Chain.

(** The argument [handler] gives to [aiExtract]. *)
Definition ai_input (mail : Mail.t) : Ai.input :=
  {| Ai.subject := Mail.subject mail;
     Ai.from := Mail.from mail;
     Ai.text := Mail.text mail |}.

Definition demo_mail : Mail.t :=
  {| Mail.uid := 42;
     Mail.messageId := "<m1@example>";
     Mail.subject := "RE: Inquiry";
     Mail.subjectNorm := "inquiry";
     Mail.from := "buyer@example.com";
     Mail.text := "Please quote 5 x abc co xy-100";
     Mail.date := "2024-01-01T00:00:00.000Z" |}.

Definition demo_extraction : JsValue :=
  JObj [("customer", JObj [("name", JStr "Acme")]);
        ("items", JArr [item (JStr "abc co") (JStr "xy-100") (JStr "5")])].

Definition demo_ai (_ : Ai.input) : Result Ai.t :=
  Ok {| Ai.model := "gpt-4o-mini"; Ai.json := demo_extraction;
        Ai.raw := "{}" |}.

Definition no_parse (_ : string) : Result JsValue :=
  Throw (SyntaxError "Unexpected token").

Definition demo_request (b : JsValue) : HttpRequest :=
  {| method := "POST"; x_sandbox_token := None; body := b |}.

(** The second insert into [inquiry_items] is refused. *)
Definition refuse_second_item : Faults :=
  fun t k =>
    match t, k with
    | T_inquiry_items, 1 => Some {| message := "connection reset" |}
    | _, _ => None
    end.

Definition padded_alias_store : Store :=
  {| inquiries := []; inquiry_items := []; quotations := [];
     quotation_items := [];
     brand_alias := [ {| BrandAlias.alias := "ABCCO";
                         BrandAlias.standard_brand := " abc corp " |};
                      {| BrandAlias.alias := "acme";
                         BrandAlias.standard_brand := "" |} ];
     price_list := [];
     next_id := 1 |}.

(* ================================================================= *)
(** ** Subjects *)

Definition is_upper (c : ascii) : bool :=
  let n := nat_of_ascii c in (65 <=? n) && (n <=? 90).

Definition lower_char (c : ascii) : ascii :=
  if is_upper c then ascii_of_nat (nat_of_ascii c + 32) else c.

(** [String.prototype.toLowerCase]. *)
Fixpoint toLowerCase (s : string) : string :=
  match s with
  | EmptyString => EmptyString
  | String c r => String (lower_char c) (toLowerCase r)
  end.

(** Two characters a pattern with the flag [i] takes for the same. *)
Definition same_letter (a b : ascii) : bool :=
  Ascii.eqb (upper_char a) (upper_char b).

(** The literal [word] at the start of [s], case ignored: what
    follows it. *)
Fixpoint after_word (word s : string) : option string :=
  match word with
  | EmptyString => Some s
  | String a word' =>
      match s with
      | EmptyString => None
      | String b s' =>
          if same_letter a b then after_word word' s' else None
      end
  end.

(** [\s*:\s*] at the start of [s]: what follows it. *)
Definition after_colon (s : string) : option string :=
  match trimStart s with
  | String ":" r => Some (trimStart r)
  | _ => None
  end.

Definition tagged_with (word s : string) : option string :=
  match after_word word s with
  | Some r => after_colon r
  | None => None
  end.

(** One round of [(re|fw|fwd)\s*:\s*] at the start of [s], the
    alternatives tried in this order. *)
Definition reply_tag (s : string) : option string :=
  match tagged_with "re" s with
  | Some r => Some r
  | None =>
      match tagged_with "fw" s with
      | Some r => Some r
      | None => tagged_with "fwd" s
      end
  end.

(** The further rounds of the [+], as many as match; a round removes
    at least three characters, so [fuel] the length of [s] is
    enough. *)
Fixpoint reply_tags (fuel : nat) (s : string) : string :=
  match fuel with
  | O => s
  | S fuel' =>
      match reply_tag s with
      | Some r => reply_tags fuel' r
      | None => s
      end
  end.

(** [s.replace(pattern, "")] for the pattern of [normalizeSubject]:
    the start of the text, white space, then one or more rounds.  The
    pattern is anchored at the start, so there is at most one match;
    without one round the text is left as it is. *)
Definition strip_reply_tags (s : string) : string :=
  match reply_tag (trimStart s) with
  | Some r => reply_tags (String.length r) r
  | None => s
  end.

(** [normalizeSubject(input)]. *)
Definition normalizeSubject (input : string) : string :=
  trim (strip_reply_tags (toLowerCase (text_env (Some input) ""))).

(* ================================================================= *)
(** ** Vocabulary of the further properties *)

(** The four tables the persistence chain writes to. *)
Definition written_table (t : Table) : bool :=
  match t with
  | T_inquiries | T_inquiry_items | T_quotations | T_quotation_items =>
      true
  | T_brand_alias | T_price_list => false
  end.


(** The requests the chain sends: inserts into the four tables and
    lookups in the two others. *)
Definition chain_request (r : Request) : bool :=
  match r with
  | Insert t => written_table t
  | Select t => negb (written_table t)
  | Delete _ => false
  end.


(** [w'] comes from [w] by appending rows to the four tables and
    requests of the chain to the wire; the lookup tables are the same. *)
Definition extends (w w' : World) : Prop :=
  (exists rows, inquiries (store w') = inquiries (store w) ++ rows)
  /\ (exists rows,
         inquiry_items (store w') = inquiry_items (store w) ++ rows)
  /\ (exists rows, quotations (store w') = quotations (store w) ++ rows)
  /\ (exists rows,
         quotation_items (store w') = quotation_items (store w) ++ rows)
  /\ brand_alias (store w') = brand_alias (store w)
  /\ price_list (store w') = price_list (store w)
  /\ exists requests,
      wire w' = wire w ++ requests
      /\ List.forallb chain_request requests = true.

(** A computation that only ever extends the world. *)
Definition extending {A} (m : IO A) : Prop :=
  forall w, extends w (snd (m w)).

Definition blank_env : ProcessEnv :=
  {| SUPABASE_URL := Some "https://db.example";
     SUPABASE_SERVICE_ROLE_KEY := Some "   ";
     SANDBOX_OWNER_USER_ID := None;
     SANDBOX_ENDPOINT_TOKEN := None |}.

Definition refuse_inquiry : Faults :=
  fun t k =>
    match t, k with
    | T_inquiries, 0 => Some {| message := "" |}
    | _, _ => None
    end.

Definition refuse_quotation : Faults :=
  fun t k =>
    match t, k with
    | T_quotations, 0 => Some {| message := "timeout" |}
    | _, _ => None
    end.

Definition refuse_second_quotation_item : Faults :=
  fun t k =>
    match t, k with
    | T_quotation_items, 1 => Some {| message := "timeout" |}
    | _, _ => None
    end.


Definition two_lines : list DraftLine :=
  [demo_line "ABCCO" "XY-100" 5; demo_line "ZZ" "Q 1" 2].


(** The QuotationItem [q] repeats the InquiryItem [it] in the
    quotation [quotation]. *)
Definition quotation_item_copies (quotation : Id) (userId : string)
           (it : Stored InquiryItem.t) (q : Stored QuotationItem.t)
  : Prop :=
  QuotationItem.quotation_id (row q) = quotation
  /\ QuotationItem.inquiry_item_id (row q) = row_id it
  /\ QuotationItem.user_id (row q) = userId
  /\ QuotationItem.brand (row q) = InquiryItem.brand (row it)
  /\ QuotationItem.brand_standard (row q) = InquiryItem.brand (row it)
  /\ QuotationItem.catalog_number (row q)
     = InquiryItem.catalog_number (row it)
  /\ QuotationItem.normalized_catalog_number (row q)
     = InquiryItem.normalized_catalog_number (row it)
  /\ QuotationItem.quantity (row q) = InquiryItem.quantity (row it).


Definition save_request : HttpRequest :=
  demo_request (JObj [("save", JBool true)]).

(** An extraction whose only item has no quantity. *)
Definition unquotable_extraction : JsValue :=
  JObj [("customer", JObj [("name", JStr "Acme")]);
        ("items", JArr [item (JStr "abc co") (JStr "xy-100") JNull])].

Definition unquotable_ai (_ : Ai.input) : Result Ai.t :=
  Ok {| Ai.model := "gpt-4o-mini"; Ai.json := unquotable_extraction;
        Ai.raw := "{}" |}.

Definition unquotable_draft : Draft :=
  {| customer_name := "Acme"; customer_country := "";
     billing_address := None; contact_person := None;
     contact_phone := None; contact_email := None;
     delivery_company_name := None; delivery_address := None;
     delivery_contact_person := None; delivery_phone := None;
     delivery_email := None; lines := [] |}.

Definition demo_ai_result : Ai.t :=
  {| Ai.model := "gpt-4o-mini"; Ai.json := demo_extraction;
     Ai.raw := "{}" |}.

Definition demo_normalised : Draft :=
  demo_draft [demo_line "ABC CO" "XY-100" 5].


(** A text with no white space at either end. *)
Definition starts_with_space (s : string) : bool :=
  match s with
  | EmptyString => false
  | String c _ => is_space c
  end.

Fixpoint ends_with_space (s : string) : bool :=
  match s with
  | EmptyString => false
  | String c EmptyString => is_space c
  | String _ r => ends_with_space r
  end.

Definition tidy (s : string) : Prop :=
  starts_with_space s = false /\ ends_with_space s = false.








(* ================================================================= *)
(** ** The mailbox *)

(** [a || b] on values that are a string or [undefined]. *)
Definition first_truthy (a b : option string) : option string :=
  match a with
  | Some s => if truthy s then a else b
  | None => b
  end.

Module Imap.

(** The IMAP variables of [process.env]. *)
Record env : Type := {
  IMAP_HOST : option string;
  IMAP_PORT : option string;
  IMAP_SECURE : option string;
  IMAP_USER : option string;
  IMAP_PASS : option string;
  IMAP_MAILBOX : option string
}.

(** The options of [new ImapFlow(...)]. *)
Record options : Type := {
  host : string;
  port : Number;
  secure : bool;
  user : string;
  pass : string
}.

Record address : Type := { address_of : option string }.

Record envelope : Type := {
  e_messageId : option string;
  e_subject : option string;
  e_from : option (list address)
}.

(** [latest.source]: a buffer, or a text. *)
Inductive source : Type :=
| Buffer (bytes : string)
| Text (s : string).

(** What [fetchOne] gives when it is not [false]. *)
Record fetched : Type := {
  f_uid : Z;
  f_source : option source;
  f_envelope : option envelope
}.

(** What [simpleParser] gives; [p_date] is the ISO text of a date that
    is there. *)
Record parsed : Type := {
  p_from : option (option (list address));
  p_messageId : option string;
  p_subject : option string;
  p_text : option string;
  p_date : option string
}.

(** What the mail server and the parser do in one run: the outcome of
    each call, [usable] as the client shows it when the run ends, and
    the clock. *)
Record session : Type := {
  connect : Result unit;
  getMailboxLock : Result unit;
  mailboxOpen : Result nat;
  fetchOne : Result (option fetched);
  simpleParser : string -> Result parsed;
  usable : bool;
  logout : Result unit;
  now : string
}.

(** The calls made on the client and on the lock. *)
Inductive event : Type :=
| Connect (o : options)
| GetMailboxLock (mailbox : string)
| MailboxOpen (mailbox : string)
| FetchOne (range : string)
| Release
| Logout.

End Imap.

(** [!latest.source]: a buffer is truthy, even empty. *)
Definition source_bytes (s : option Imap.source) : option string :=
  match s with
  | Some (Imap.Buffer b) => Some b
  | Some (Imap.Text t) => if truthy t then Some t else None
  | None => None
  end.

(** [addresses.find((v) => v.address)?.address]. *)
Fixpoint first_address (l : list Imap.address) : option string :=
  match l with
  | [] => None
  | a :: rest =>
      match Imap.address_of a with
      | Some s => if truthy s then Some s else first_address rest
      | None => first_address rest
      end
  end.

(** [addresses?.[0]?.address]. *)
Definition head_address (l : option (list Imap.address)) : option string :=
  match l with
  | Some (a :: _) => Imap.address_of a
  | _ => None
  end.

Definition imap_options (env : Imap.env) : Imap.options :=
  {| Imap.host := text_env (Imap.IMAP_HOST env) "";
     Imap.port := parseInt10 (text_env (Imap.IMAP_PORT env) "993");
     Imap.secure :=
       negb (String.eqb
               (toLowerCase (text_env (Imap.IMAP_SECURE env) "true"))
               "false");
     Imap.user := text_env (Imap.IMAP_USER env) "";
     Imap.pass := text_env (Imap.IMAP_PASS env) "" |}.

Definition imap_mailbox (env : Imap.env) : string :=
  text_env (Imap.IMAP_MAILBOX env) "INBOX".

(** The object [pullLatestEmail] returns. *)
Definition mail_of (s : Imap.session) (latest : Imap.fetched)
           (p : Imap.parsed) : Mail.t :=
  let envelope := Imap.f_envelope latest in
  let from :=
    first_truthy
      (first_truthy
         (match Imap.p_from p with
          | Some (Some value) => first_address value
          | _ => None
          end)
         (match envelope with
          | Some e => head_address (Imap.e_from e)
          | None => None
          end))
      (Some "") in
  let messageId :=
    first_truthy
      (first_truthy (Imap.p_messageId p)
         (match envelope with
          | Some e => Imap.e_messageId e
          | None => None
          end))
      (Some "") in
  let subject :=
    first_truthy
      (first_truthy (Imap.p_subject p)
         (match envelope with
          | Some e => Imap.e_subject e
          | None => None
          end))
      (Some "") in
  {| Mail.uid := Imap.f_uid latest;
     Mail.messageId := text_env messageId "";
     Mail.subject := text_env subject "";
     Mail.subjectNorm := normalizeSubject (text_env subject "");
     Mail.from := toLowerCase (text_env from "");
     Mail.text := text_env (Imap.p_text p) "";
     Mail.date :=
       match first_truthy (Imap.p_date p) None with
       | Some d => d
       | None => Imap.now s
       end |}.

(** The [try] block of [pullLatestEmail]: its outcome, the calls it
    made, and whether [lock] was set. *)
Definition pull_body (env : Imap.env) (s : Imap.session)
  : Result Mail.t * list Imap.event * bool :=
  let mailbox := imap_mailbox env in
  let started := [Imap.Connect (imap_options env)] in
  match Imap.connect s with
  | Throw e => (Throw e, started, false)
  | Ok _ =>
      let locking := started ++ [Imap.GetMailboxLock mailbox] in
      match Imap.getMailboxLock s with
      | Throw e => (Throw e, locking, false)
      | Ok _ =>
          let opening := locking ++ [Imap.MailboxOpen mailbox] in
          match Imap.mailboxOpen s with
          | Throw e => (Throw e, opening, true)
          | Ok O => (Throw (Error "Mailbox is empty."), opening, true)
          | Ok count =>
              let fetching :=
                opening
                ++ [Imap.FetchOne
                      (NilZero.string_of_uint (Nat.to_uint count))] in
              match Imap.fetchOne s with
              | Throw e => (Throw e, fetching, true)
              | Ok None =>
                  (Throw (Error "Unable to fetch latest message."),
                   fetching, true)
              | Ok (Some latest) =>
                  match source_bytes (Imap.f_source latest) with
                  | None =>
                      (Throw (Error "Unable to fetch latest message."),
                       fetching, true)
                  | Some bytes =>
                      match Imap.simpleParser s bytes with
                      | Throw e => (Throw e, fetching, true)
                      | Ok p => (Ok (mail_of s latest p), fetching, true)
                      end
                  end
              end
          end
      end
  end.

(** The [finally] block: the lock, if set, is released; then the
    client, if usable, is logged out, and a failure of that is
    ignored. *)
Definition pull_finally (s : Imap.session) (lock : bool)
  : list Imap.event :=
  (if lock then [Imap.Release] else [])
  ++ (if Imap.usable s then [Imap.Logout] else []).

(** [pullLatestEmail()]: what it returns or throws, and the calls it
    made. *)
Definition pullLatestEmail (env : Imap.env) (s : Imap.session)
  : Result Mail.t * list Imap.event :=
  let o := imap_options env in
  if negb (truthy (Imap.host o)) || negb (truthy (Imap.user o))
     || negb (truthy (Imap.pass o))
  then (Throw (Error "Missing IMAP_HOST/IMAP_USER/IMAP_PASS"), [])
  else
    let '(outcome, calls, lock) := pull_body env s in
    (outcome, calls ++ pull_finally s lock).


(** The three IMAP variables [pullLatestEmail] asks for are there. *)
Definition imap_configured (env : Imap.env) : Prop :=
  text_env (Imap.IMAP_HOST env) "" <> ""
  /\ text_env (Imap.IMAP_USER env) "" <> ""
  /\ text_env (Imap.IMAP_PASS env) "" <> "".

(** The calls made before the [finally] block. *)
Definition mailbox_call (e : Imap.event) : bool :=
  match e with
  | Imap.Release | Imap.Logout => false
  | _ => true
  end.

(** The lock was obtained. *)
Definition locked (s : Imap.session) : bool :=
  match Imap.connect s, Imap.getMailboxLock s with
  | Ok _, Ok _ => true
  | _, _ => false
  end.

(** The session [s] with another end: [usable] and [logout]. *)
Definition with_logout (s : Imap.session) (u : bool) (l : Result unit)
  : Imap.session :=
  {| Imap.connect := Imap.connect s;
     Imap.getMailboxLock := Imap.getMailboxLock s;
     Imap.mailboxOpen := Imap.mailboxOpen s;
     Imap.fetchOne := Imap.fetchOne s;
     Imap.simpleParser := Imap.simpleParser s;
     Imap.usable := u;
     Imap.logout := l;
     Imap.now := Imap.now s |}.

Definition decimal (n : nat) : string :=
  NilZero.string_of_uint (Nat.to_uint n).

Definition demo_imap_env : Imap.env :=
  {| Imap.IMAP_HOST := Some "imap.example.com";
     Imap.IMAP_PORT := None;
     Imap.IMAP_SECURE := Some " FALSE ";
     Imap.IMAP_USER := Some "quotes@example.com";
     Imap.IMAP_PASS := Some "secret";
     Imap.IMAP_MAILBOX := None |}.

Definition no_imap_env : Imap.env :=
  {| Imap.IMAP_HOST := Some "imap.example.com";
     Imap.IMAP_PORT := Some "993";
     Imap.IMAP_SECURE := None;
     Imap.IMAP_USER := Some "  ";
     Imap.IMAP_PASS := Some "secret";
     Imap.IMAP_MAILBOX := None |}.

Definition demo_parsed : Imap.parsed :=
  {| Imap.p_from :=
       Some (Some [ {| Imap.address_of := None |};
                    {| Imap.address_of := Some " Buyer@Example.COM " |} ]);
     Imap.p_messageId := None;
     Imap.p_subject := Some " RE: Fwd: Inquiry 42 ";
     Imap.p_text := Some "Please quote 5 x abc co xy-100";
     Imap.p_date := None |}.

Definition demo_fetched : Imap.fetched :=
  {| Imap.f_uid := 77;
     Imap.f_source := Some (Imap.Buffer "raw message");
     Imap.f_envelope :=
       Some {| Imap.e_messageId := Some "<m1@example>";
               Imap.e_subject := Some "other";
               Imap.e_from := None |} |}.

Definition demo_session : Imap.session :=
  {| Imap.connect := Ok tt;
     Imap.getMailboxLock := Ok tt;
     Imap.mailboxOpen := Ok 12;
     Imap.fetchOne := Ok (Some demo_fetched);
     Imap.simpleParser := fun _ => Ok demo_parsed;
     Imap.usable := true;
     Imap.logout := Throw (Error "socket closed");
     Imap.now := "2024-01-01T00:00:00.000Z" |}.

Definition empty_mailbox_session : Imap.session :=
  {| Imap.connect := Ok tt;
     Imap.getMailboxLock := Ok tt;
     Imap.mailboxOpen := Ok 0;
     Imap.fetchOne := Ok None;
     Imap.simpleParser := fun _ => Throw (Error "never called");
     Imap.usable := true;
     Imap.logout := Ok tt;
     Imap.now := "2024-01-01T00:00:00.000Z" |}.


(* ================================================================= *)
(** ** The extraction service *)

Module OpenAi.

(** The two variables of [process.env] that [aiExtract] reads. *)
Record env : Type := {
  OPENAI_API_KEY : option string;
  OPENAI_MODEL : option string
}.

(** The request [aiExtract] posts: where, under which [Authorization]
    header, and the members of the body that vary: the model and the
    content of the system and user messages. *)
Record request : Type := {
  url : string;
  authorization : string;
  model : string;
  system : string;
  prompt : string
}.

(** What comes back: [resp.ok], [resp.status] as it prints, and what
    [resp.text()] and [resp.json()] give. *)
Record response : Type := {
  ok : bool;
  status : string;
  body_text : Result string;
  body_json : Result JsValue
}.

End OpenAi.

(** The line feed. *)
Definition line_feed : string := String (ascii_of_nat 10) EmptyString.

(** [lines.join("\n")]. *)
Fixpoint join_lines (l : list string) : string :=
  match l with
  | [] => ""
  | [x] => x
  | x :: rest => (x ++ line_feed ++ join_lines rest)%string
  end.

(** The fixed lines at the head of the prompt. *)
Definition prompt_head : list string :=
  ["Extract inquiry data from this email.";
   "Return STRICT JSON only. No markdown, no explanation.";
   "Allowed top-level keys: customer, delivery, items";
   "Allowed customer keys: name, country, billing_address, contact_person, contact_phone, contact_email";
   "Allowed delivery keys: company_name, address, contact_person, phone, email";
   "Allowed item keys: brand, catalog_number, quantity";
   "If uncertain, use null.";
   ""].

#[local] Set Warnings "-abstract-large-number".

Definition prompt_of (mail : Ai.input) : string :=
  join_lines
    (prompt_head
     ++ [("Subject: " ++ Ai.subject mail)%string;
         ("From: " ++ Ai.from mail)%string;
         "Body:";
         slice0 12000 (Ai.text mail)]).

(** [v?.[0]]: the first element of an array, the property [0] of an
    object, the first character of a text. *)
Definition first_opt (v : JsValue) : JsValue :=
  match v with
  | JArr (x :: _) => x
  | JObj props =>
      match own_property props "0" with
      | Some x => x
      | None => JUndefined
      end
  | JStr (String c _) => JStr (String c EmptyString)
  | _ => JUndefined
  end.

(** [payload?.choices?.[0]?.message?.content]. *)
Definition completion_content (payload : JsValue) : JsValue :=
  get_opt (get_opt (first_opt (get_opt payload "choices")) "message")
          "content".

(** The request for a key, a model and a mail. *)
Definition ai_request (key model : string) (mail : Ai.input)
  : OpenAi.request :=
  {| OpenAi.url := "https://api.openai.com/v1/chat/completions";
     OpenAi.authorization := ("Bearer " ++ key)%string;
     OpenAi.model := model;
     OpenAi.system := "Output strict JSON only.";
     OpenAi.prompt := prompt_of mail |}.

Section AiExtract.

Variable env : OpenAi.env.
Variable fetch : OpenAi.request -> Result OpenAi.response.
Variable JSON_parse : string -> Result JsValue.

(** What [aiExtract] does with the response. *)
Definition read_completion (model : string) (resp : OpenAi.response)
  : Result Ai.t :=
  if negb (OpenAi.ok resp)
  then (body <- OpenAi.body_text resp ;;
        Throw (Error ("OpenAI error " ++ OpenAi.status resp ++ ": "
                        ++ body)%string))%result
  else (payload <- OpenAi.body_json resp ;;
        content <- text (completion_content payload) "" ;;
        if negb (truthy content)
        then Throw (Error "OpenAI returned empty content.")
        else (json <- JSON_parse content ;;
              Ok {| Ai.model := model; Ai.json := json;
                    Ai.raw := content |}))%result.

(** [aiExtract(mail)]: what it returns or throws, and the requests it
    posted. *)
Definition aiExtract (mail : Ai.input)
  : Result Ai.t * list OpenAi.request :=
  let key := text_env (OpenAi.OPENAI_API_KEY env) "" in
  let model := text_env (OpenAi.OPENAI_MODEL env) "gpt-4o-mini" in
  if negb (truthy key) then (Throw (Error "Missing OPENAI_API_KEY"), [])
  else
    let req := ai_request key model mail in
    (rbind (fetch req) (read_completion model), [req]).

End AiExtract.

Definition demo_ai_env : OpenAi.env :=
  {| OpenAi.OPENAI_API_KEY := Some " sk-test ";
     OpenAi.OPENAI_MODEL := None |}.

Definition demo_completion : JsValue :=
  JObj [("choices",
         JArr [JObj [("message",
                      JObj [("content", JStr " {} ")])]])].

Definition demo_fetch (_ : OpenAi.request) : Result OpenAi.response :=
  Ok {| OpenAi.ok := true; OpenAi.status := "200";
        OpenAi.body_text := Ok "";
        OpenAi.body_json := Ok demo_completion |}.

Definition overloaded_fetch (_ : OpenAi.request)
  : Result OpenAi.response :=
  Ok {| OpenAi.ok := false; OpenAi.status := "429";
        OpenAi.body_text := Ok "rate limited";
        OpenAi.body_json := Throw (SyntaxError "Unexpected token") |}.

Definition demo_parse (_ : string) : Result JsValue :=
  Ok (JObj []).


(** The key is set and not blank. *)
Definition ai_configured (env : OpenAi.env) : Prop :=
  text_env (OpenAi.OPENAI_API_KEY env) "" <> "".

Definition no_ai_env : OpenAi.env :=
  {| OpenAi.OPENAI_API_KEY := Some "  ";
     OpenAi.OPENAI_MODEL := Some "gpt-4o" |}.

(** The mail with nothing in it: its prompt is the fixed part of every
    prompt. *)
Definition blank_mail : Ai.input :=
  {| Ai.subject := ""; Ai.from := ""; Ai.text := "" |}.

Definition demo_ai_input : Ai.input :=
  {| Ai.subject := "RFQ 2 items";
     Ai.from := "buyer@example.com";
     Ai.text := "Please quote ab1234 x 2" |}.

(** The model [aiExtract] names when [OPENAI_MODEL] is unset or blank. *)
Definition default_model : string := "gpt-4o-mini".

(** A completion without content: no [choices], an empty list, a choice
    without [message], a message without [content], or a content that is
    [null] or blank. *)
Definition without_content (payload : JsValue) : Prop :=
  is_nullish (completion_content payload) = true
  \/ exists s, completion_content payload = JStr s /\ trim s = "".

Definition empty_choices_fetch (_ : OpenAi.request)
  : Result OpenAi.response :=
  Ok {| OpenAi.ok := true; OpenAi.status := "200";
        OpenAi.body_text := Ok "";
        OpenAi.body_json := Ok (JObj [("choices", JArr [])]) |}.

(* ================================================================= *)
(** * Properties *)

(** ** Strings *)

Lemma truthy_nonempty (s : string) : truthy s = true <-> s <> "".
Proof.
  unfold truthy; destruct s; simpl; split; intro H;
    congruence || (exfalso; now apply H).
Qed.

Lemma truthy_false_empty (s : string) : truthy s = false <-> s = "".
Proof. unfold truthy; destruct s; simpl; split; congruence. Qed.

Lemma toUpperCase_nonempty (s : string) :
  s <> "" -> toUpperCase s <> "".
Proof. destruct s; simpl; congruence. Qed.






(** ** The normaliser *)

Lemma rbind_ok {A B} (r : Result A) (k : A -> Result B) (b : B) :
  rbind r k = Ok b -> exists a, r = Ok a /\ k a = Ok b.
Proof. destruct r as [a | e]; simpl; [eauto | discriminate]. Qed.

Ltac invert_binds :=
  repeat match goal with
         | H : rbind _ _ = Ok _ |- _ =>
             let a := fresh "x" in
             let E := fresh "E" in
             apply rbind_ok in H; destruct H as (a & E & H)
         | H : Ok _ = Ok _ |- _ => injection H as H
         end.

Lemma get_ok (v : JsValue) (key : string) (x : JsValue) :
  get v key = Ok x -> get_opt v key = x.
Proof.
  destruct v; simpl; intro H; try discriminate; now injection H.
Qed.

Lemma get_not_nullish (v : JsValue) (key : string) :
  is_nullish v = false -> get v key = Ok (get_opt v key).
Proof. destruct v; simpl; intro H; try discriminate; reflexivity. Qed.

Lemma text_coerced (v : JsValue) (fallback s : string) :
  text v fallback = Ok s <->
  exists t, coerced v = Ok t /\ s = or_else t fallback.
Proof.
  unfold text, coerced.
  destruct (ToString (nullish_or v (JStr ""))) as [t | e]; simpl.
  - split.
    + intro H; injection H as <-; eauto.
    + intros (t' & H & ->); injection H as <-; reflexivity.
  - split; [discriminate | intros (t' & H & _); discriminate].
Qed.

Lemma asQty_coerced (v : JsValue) (q : option Z) :
  asQty v = Ok q <->
  exists t, coerced v = Ok t /\ q = finite_positive (parseInt10 t).
Proof.
  unfold asQty, coerced.
  destruct (ToString (nullish_or v (JStr ""))) as [t | e]; simpl.
  - split.
    + intro H; injection H as <-; eauto.
    + intros (t' & H & ->); injection H as <-; reflexivity.
  - split; [discriminate | intros (t' & H & _); discriminate].
Qed.

Lemma or_else_blank (t : string) : or_else t "" = t.
Proof. destruct t; reflexivity. Qed.

Lemma finite_positive_some (x : Number) (n : Z) :
  finite_positive x = Some n <-> x = Finite n /\ (0 < n)%Z.
Proof.
  destruct x as [| z | |]; simpl;
    try (split; [discriminate | intros [H _]; discriminate]).
  destruct (Z.ltb_spec 0 z); split.
  - intro E; injection E as <-; auto.
  - intros [E _]; injection E as <-; reflexivity.
  - discriminate.
  - intros [E P]; injection E as <-; lia.
Qed.

(** An item is kept exactly as the line it stands for. *)
Lemma line_of_item_survives (it : JsValue) (l : DraftLine) :
  line_of_item it = Ok (Some l) <-> survives_as it l.
Proof.
  unfold line_of_item, survives_as; split.
  - intro H. invert_binds.
    apply text_coerced in E0, E2.
    destruct E0 as (b & Cb & ->), E2 as (c & Cc & ->).
    rewrite !or_else_blank in H.
    apply asQty_coerced in E4. destruct E4 as (q & Cq & ->).
    destruct (truthy b) eqn:Tb; [| discriminate].
    destruct (truthy c) eqn:Tc; [| discriminate].
    simpl in H.
    destruct (finite_positive (parseInt10 q)) as [n |] eqn:F;
      [| discriminate].
    injection H as <-.
    apply finite_positive_some in F. destruct F as [F P].
    apply truthy_nonempty in Tb, Tc.
    exists x, x1, x3, b, c, q, n. repeat split; trivial.
  - intros (vb & vc & vq & b & c & q & n & Gb & Gc & Gq & Cb & Cc & Cq
            & Nb & Nc & F & P & ->).
    rewrite Gb; simpl.
    assert (Tb : text vb "" = Ok b)
      by (apply text_coerced; exists b; now rewrite or_else_blank).
    assert (Tc : text vc "" = Ok c)
      by (apply text_coerced; exists c; now rewrite or_else_blank).
    assert (Tq : asQty vq = Ok (Some n)).
    { apply asQty_coerced. exists q; split; [assumption |].
      symmetry; now apply finite_positive_some. }
    rewrite Tb; simpl. rewrite Gc; simpl. rewrite Tc; simpl.
    rewrite Gq; simpl. rewrite Tq; simpl.
    apply truthy_nonempty in Nb, Nc. now rewrite Nb, Nc.
Qed.

Lemma survives_valid (it : JsValue) (l : DraftLine) :
  survives_as it l -> valid_line l.
Proof.
  intros (vb & vc & vq & b & c & q & n & _ & _ & _ & _ & _ & _
          & Nb & Nc & _ & P & ->).
  repeat split; simpl; auto using toUpperCase_nonempty.
Qed.

Lemma map_result_ok {A B} (f : A -> Result B) (xs : list A) :
  forall ys, map_result f xs = Ok ys ->
             Forall2 (fun x y => f x = Ok y) xs ys.
Proof.
  induction xs as [| x rest IH]; simpl; intros ys H.
  - injection H as <-; constructor.
  - invert_binds. subst ys. constructor; auto.
Qed.

Lemma map_result_total {A B} (f : A -> Result B) (xs : list A) :
  Forall (fun x => exists y, f x = Ok y) xs ->
  exists ys, map_result f xs = Ok ys.
Proof.
  induction 1 as [| x rest (y & Hy) _ (ys & IH)]; simpl; [eauto |].
  rewrite Hy, IH; simpl; eauto.
Qed.

Lemma filter_present_in {A} (xs : list (option A)) (a : A) :
  In a (filter_present xs) <-> In (Some a) xs.
Proof.
  induction xs as [| [b |] rest IH]; simpl; [tauto | |].
  - rewrite IH. split; intros [H | H]; auto; left; congruence.
  - rewrite IH. split; [auto | intros [H | H]; [discriminate | auto]].
Qed.

(** What [transformAiToDraft] returns has the lines kept from the
    mapped items. *)
Lemma transformAiToDraft_lines (ai : JsValue) (d : Draft) :
  transformAiToDraft ai = Ok d ->
  exists mapped,
    map_result line_of_item (items_of ai) = Ok mapped
    /\ lines d = filter_present mapped.
Proof.
  unfold transformAiToDraft, items_of. intro H.
  invert_binds. apply get_ok in E1. subst x1.
  exists x13. split; [assumption |]. now subst d.
Qed.

Lemma JsValue_nested_ind (P : JsValue -> Prop) :
  P JUndefined -> P JNull -> (forall b, P (JBool b)) ->
  (forall shown, P (JNum shown)) -> (forall s, P (JStr s)) ->
  (forall elems, Forall P elems -> P (JArr elems)) ->
  (forall props, P (JObj props)) ->
  forall v, P v.
Proof.
  intros Hu Hn Hb Hnum Hs Ha Ho.
  fix IH 1. intros [| | b | shown | s | elems | props].
  - exact Hu.
  - exact Hn.
  - apply Hb.
  - apply Hnum.
  - apply Hs.
  - apply Ha. induction elems as [| x rest IHl]; constructor.
    + apply IH.
    + exact IHl.
  - apply Ho.
Qed.

Lemma printable_ToString (v : JsValue) :
  printable v = true -> exists s, ToString v = Ok s.
Proof.
  induction v as [| | b | shown | s | elems IH | props]
    using JsValue_nested_ind; simpl; intro H; eauto.
  - destruct b; eauto.
  - generalize true.
    induction IH as [| x rest Hx _ IHrest]; intro first; simpl; [eauto |].
    simpl in H. apply andb_true_iff in H. destruct H as [Px Prest].
    destruct (IHrest Prest false) as (sr & ->).
    destruct (is_nullish x); simpl; [eauto |].
    destruct (Hx Px) as (sx & ->); simpl; eauto.
  - destruct (has_own props "toString"); [discriminate | eauto].
Qed.

Lemma coerced_printable (v : JsValue) :
  printable v = true -> exists t, coerced v = Ok t.
Proof.
  intro H. unfold coerced.
  assert (P : printable (nullish_or v (JStr "")) = true)
    by (unfold nullish_or; destruct (is_nullish v); auto).
  destruct (printable_ToString _ P) as (s & ->); simpl; eauto.
Qed.

Lemma field_text (obj : JsValue) (key : string) :
  is_nullish obj = false -> printable (get_opt obj key) = true ->
  exists s, (x <- get obj key ;; text x "")%result = Ok s.
Proof.
  intros N P. rewrite (get_not_nullish _ _ N); simpl.
  destruct (coerced_printable _ P) as (t & C).
  exists (or_else t ""). apply text_coerced; eauto.
Qed.

Lemma field_maybeText (obj : JsValue) (key : string) :
  is_nullish obj = false -> printable (get_opt obj key) = true ->
  exists s, (x <- get obj key ;; maybeText x)%result = Ok s.
Proof.
  intros N P. rewrite (get_not_nullish _ _ N); simpl.
  destruct (coerced_printable _ P) as (t & C).
  unfold coerced in C. unfold maybeText.
  destruct (ToString (nullish_or (get_opt obj key) (JStr "")));
    simpl in *; [eauto | discriminate].
Qed.

Lemma field_asQty (obj : JsValue) (key : string) :
  is_nullish obj = false -> printable (get_opt obj key) = true ->
  exists q, (x <- get obj key ;; asQty x)%result = Ok q.
Proof.
  intros N P. rewrite (get_not_nullish _ _ N); simpl.
  destruct (coerced_printable _ P) as (t & C).
  exists (finite_positive (parseInt10 t)). apply asQty_coerced; eauto.
Qed.

Lemma nullish_or_object (v : JsValue) :
  is_nullish (nullish_or v (JObj [])) = false.
Proof. destruct v; reflexivity. Qed.

Lemma line_of_item_total (it : JsValue) :
  is_nullish it = false ->
  fields_printable it ["brand"; "catalog_number"; "quantity"] = true ->
  exists y, line_of_item it = Ok y.
Proof.
  intros N P. simpl in P.
  repeat (apply andb_true_iff in P; destruct P as [?P P]).
  unfold line_of_item.
  destruct (field_text it "brand" N P0) as (b & Hb).
  destruct (field_text it "catalog_number" N P1) as (c & Hc).
  destruct (field_asQty it "quantity" N P2) as (q & Hq).
  rewrite (get_not_nullish _ _ N) in Hb; simpl in Hb.
  rewrite (get_not_nullish _ _ N) in Hc; simpl in Hc.
  rewrite (get_not_nullish _ _ N) in Hq; simpl in Hq.
  rewrite !(get_not_nullish _ _ N); simpl.
  rewrite Hb; simpl. rewrite Hc; simpl. rewrite Hq; simpl.
  eauto.
Qed.

(** A readable extraction is normalised without an exception. *)
Lemma transformAiToDraft_total (ai : JsValue) :
  readable ai = true -> exists d, transformAiToDraft ai = Ok d.
Proof.
  unfold readable. intro H.
  repeat (apply andb_true_iff in H; destruct H as [H ?R]).
  apply negb_true_iff in H.
  simpl in R0, R1.
  repeat (apply andb_true_iff in R0; destruct R0 as [?P R0]).
  repeat (apply andb_true_iff in R1; destruct R1 as [?Q R1]).
  unfold transformAiToDraft.
  rewrite !(get_not_nullish _ _ H); simpl.
  set (customer := nullish_or (get_opt ai "customer") (JObj [])) in *.
  set (delivery := nullish_or (get_opt ai "delivery") (JObj [])) in *.
  pose proof (nullish_or_object (get_opt ai "customer")) as Nc.
  pose proof (nullish_or_object (get_opt ai "delivery")) as Nd.
  fold customer in Nc. fold delivery in Nd.
  destruct (field_text customer "name" Nc Q) as (? & ->).
  destruct (field_text customer "country" Nc Q0) as (? & ->).
  destruct (field_maybeText customer "billing_address" Nc Q1) as (? & ->).
  destruct (field_maybeText customer "contact_person" Nc Q2) as (? & ->).
  destruct (field_maybeText customer "contact_phone" Nc Q3) as (? & ->).
  destruct (field_maybeText customer "contact_email" Nc Q4) as (? & ->).
  destruct (field_maybeText delivery "company_name" Nd P) as (? & ->).
  destruct (field_maybeText delivery "address" Nd P0) as (? & ->).
  destruct (field_maybeText delivery "contact_person" Nd P1) as (? & ->).
  destruct (field_maybeText delivery "phone" Nd P2) as (? & ->).
  destruct (field_maybeText delivery "email" Nd P3) as (? & ->).
  simpl.
  destruct (@map_result_total _ _ line_of_item
              (array_or_empty (get_opt ai "items"))) as (ys & ->).
  - apply Forall_forall. intros it Hin.
    rewrite forallb_forall in R. specialize (R it Hin).
    apply andb_true_iff in R. destruct R as [N F].
    apply negb_true_iff in N. now apply line_of_item_total.
  - simpl. eauto.
Qed.

(** ** Order of the kept lines *)







(** ** Quantities *)

Lemma digit_not_space_or_sign (c : ascii) :
  is_digit c = true ->
  is_space c = false /\ c <> "-"%char /\ c <> "+"%char.
Proof.
  destruct c as [[] [] [] [] [] [] [] []]; intro H; vm_compute in H;
    try discriminate H; repeat split; try reflexivity; discriminate.
Qed.

Lemma read_digits_prefix (ds rest : string) :
  JsString.forallb is_digit ds = true ->
  starts_with_digit rest = false ->
  forall acc, read_digits acc (ds ++ rest) = read_digits acc ds.
Proof.
  intros D R. induction ds as [| c r IH]; simpl; intro acc.
  - destruct rest as [| c r]; simpl in *; [reflexivity |].
    unfold is_digit in R. now destruct (digit_value c).
  - simpl in D. apply andb_true_iff in D. destruct D as [Dc Dr].
    unfold is_digit in Dc. destruct (digit_value c); [| discriminate].
    now apply IH.
Qed.

Lemma round_binary64_exact (n : Z) :
  (0 <= n <= 2 ^ 53)%Z -> round_binary64 n = Some n.
Proof.
  intros [L U].
  assert (C : (n = 0 \/ n = 2 ^ 53 \/ 0 < n < 2 ^ 53)%Z) by lia.
  destruct C as [-> | [-> | [P B]]]; try reflexivity.
  unfold round_binary64.
  apply Z.log2_lt_pow2 in B; [| assumption].
  destruct (Z.leb_spec (Z.log2 n + 1) 53); [reflexivity | lia].
Qed.

(** [parseInt] on a text that starts with digits. *)
Lemma parseInt10_leading_digits (ds rest : string) :
  ds <> "" ->
  JsString.forallb is_digit ds = true ->
  starts_with_digit rest = false ->
  parseInt10 (ds ++ rest) = number_of_int false (read_digits 0 ds).
Proof.
  intros N D R.
  destruct ds as [| c r]; [congruence |].
  pose proof D as D'. simpl in D'. apply andb_true_iff in D'.
  destruct D' as [Dc _].
  destruct (digit_not_space_or_sign c Dc) as (Sp & Minus & Plus).
  unfold parseInt10. simpl. rewrite Sp.
  assert (E : match String c (r ++ rest) with
              | String "-" t => (true, t)
              | String "+" t => (false, t)
              | _ => (false, String c (r ++ rest))
              end = (false, String c (r ++ rest))).
  { destruct c as [[] [] [] [] [] [] [] []]; try reflexivity;
      congruence. }
  rewrite E. cbv beta iota zeta. unfold starts_with_digit. rewrite Dc.
  change (String c (r ++ rest)) with (String c r ++ rest)%string.
  now rewrite (read_digits_prefix _ _ D R).
Qed.

Lemma Forall2_pick_left {A B} (R : A -> B -> Prop) (xs : list A)
      (ys : list B) (y : B) :
  Forall2 R xs ys -> In y ys -> exists x, In x xs /\ R x y.
Proof.
  induction 1 as [| x0 y0 xs' ys' R0 _ IH]; simpl; [contradiction |].
  intros [<- | Hin]; [eauto |].
  destruct (IH Hin) as (x & Hx & Rx); eauto.
Qed.


(** ** The claims about the normaliser *)

(** The scenario of the description: one item, one line. *)
Example transformAiToDraft_demo :
  readable demo_extraction = true
  /\ option_map lines
       (match transformAiToDraft demo_extraction with
        | Ok d => Some d
        | Throw _ => None
        end)
     = Some [{| brandInputUpper := "ABC CO";
                catalogUpper := "XY-100";
                normalizedCatalog := "XY100";
                quantity := 5 |}].
Proof. split; reflexivity. Qed.

(** Above 2^53 [parseInt] gives the nearest double, and a text of 400
    digits gives [Infinity], which [asQty] rejects. *)
Example parseInt10_rounds_large_integers :
  parseInt10 "9007199254740993" = Finite 9007199254740992
  /\ parseInt10 "12345678901234567890123"
     = Finite 12345678901234567741440
  /\ round_binary64 (10 ^ 400) = None
  /\ finite_positive (number_of_int false (10 ^ 400)) = None.
Proof. repeat split; vm_compute; reflexivity. Qed.

(** C4, amended.  [transformAiToDraft] returns a draft for every
    readable extraction (one that is not [null], has no [null] item
    and no object with an own property [toString] among its text
    fields), and whenever it returns a draft, every line of the draft
    has a non-empty brand, a non-empty catalog and an integer quantity
    above zero. *)
Theorem transformAiToDraft_lines_valid :
  forall ai : JsValue,
    (readable ai = true -> exists d, transformAiToDraft ai = Ok d)
    /\ (forall d, transformAiToDraft ai = Ok d ->
                  Forall valid_line (lines d)).
Proof.
  intro ai. split; [apply transformAiToDraft_total |].
  intros d H. apply transformAiToDraft_lines in H.
  destruct H as (mapped & M & ->). apply map_result_ok in M.
  apply Forall_forall. intros l Hl.
  apply filter_present_in in Hl.
  eapply Forall2_pick_left in Hl; [| exact M].
  destruct Hl as (it & _ & Hit).
  apply line_of_item_survives in Hit.
  exact (survives_valid Hit).
Qed.

(** C4 as stated fails: an extraction whose item list holds [null],
    an extraction with a brand that is an object with an own property
    [toString], and the extraction [null] make the normaliser throw. *)
Lemma transformAiToDraft_can_throw :
  transformAiToDraft (JObj [("items", JArr [JNull])])
  = Throw (TypeError "Cannot read properties of null (reading 'brand')")
  /\ transformAiToDraft
       (JObj [("items",
               JArr [item (JObj [("toString", JNum "1")])
                          (JStr "xy-100") (JStr "5")])])
     = Throw (TypeError "Cannot convert object to primitive value")
  /\ transformAiToDraft JNull
     = Throw (TypeError
                "Cannot read properties of null (reading 'customer')").
Proof. repeat split. Qed.



(** C9, amended.  When the quantity of an item, coerced and trimmed,
    is a run of decimal digits followed by text that does not start
    with a digit, and the digits read as an integer above zero and at
    most 2^53, [asQty] returns that integer, and the item, if its
    brand and catalog are not empty, is kept with that quantity. *)
Theorem asQty_reads_leading_integer :
  forall (it vb vc vq : JsValue) (b c ds rest : string),
    get it "brand" = Ok vb -> get it "catalog_number" = Ok vc ->
    get it "quantity" = Ok vq ->
    coerced vb = Ok b -> coerced vc = Ok c ->
    coerced vq = Ok (ds ++ rest)%string ->
    b <> "" -> c <> "" ->
    ds <> "" -> JsString.forallb is_digit ds = true ->
    starts_with_digit rest = false ->
    (0 < read_digits 0 ds <= 2 ^ 53)%Z ->
    asQty vq = Ok (Some (read_digits 0 ds))
    /\ line_of_item it
       = Ok (Some {| brandInputUpper := toUpperCase b;
                     catalogUpper := toUpperCase c;
                     normalizedCatalog := normalizeCatalog c;
                     quantity := read_digits 0 ds |}).
Proof.
  intros it vb vc vq b c ds rest Gb Gc Gq Cb Cc Cq Nb Nc Nd D R [P U].
  assert (F : parseInt10 (ds ++ rest) = Finite (read_digits 0 ds)).
  { rewrite parseInt10_leading_digits by assumption.
    unfold number_of_int. now rewrite round_binary64_exact by lia. }
  split.
  - apply asQty_coerced. exists (ds ++ rest)%string.
    split; [assumption |]. rewrite F. simpl.
    destruct (Z.ltb_spec 0 (read_digits 0 ds)); [reflexivity | lia].
  - apply line_of_item_survives.
    exists vb, vc, vq, b, c, (ds ++ rest)%string, (read_digits 0 ds).
    repeat split; auto.
Qed.

Lemma asQty_reads_leading_integer_witness :
  (asQty (JStr "7 pcs") = Ok (Some 7%Z)
   /\ line_of_item (item (JStr "abc co") (JStr "xy-100") (JStr "7 pcs"))
      = Ok (Some {| brandInputUpper := "ABC CO";
                    catalogUpper := "XY-100";
                    normalizedCatalog := "XY100";
                    quantity := 7 |}))
  /\ (asQty (JNum "7.5") = Ok (Some 7%Z)
      /\ line_of_item (item (JStr "abc co") (JStr "xy-100") (JNum "7.5"))
         = Ok (Some {| brandInputUpper := "ABC CO";
                       catalogUpper := "XY-100";
                       normalizedCatalog := "XY100";
                       quantity := 7 |})).
Proof.
  split.
  - apply (@asQty_reads_leading_integer
             (item (JStr "abc co") (JStr "xy-100") (JStr "7 pcs"))
             (JStr "abc co") (JStr "xy-100") (JStr "7 pcs")
             "abc co" "xy-100" "7" " pcs");
      try reflexivity; try discriminate.
    vm_compute; split; [reflexivity | discriminate].
  - apply (@asQty_reads_leading_integer
             (item (JStr "abc co") (JStr "xy-100") (JNum "7.5"))
             (JStr "abc co") (JStr "xy-100") (JNum "7.5")
             "abc co" "xy-100" "7" ".5");
      try reflexivity; try discriminate.
    vm_compute; split; [reflexivity | discriminate].
Defined.

(** C9 as stated fails: the quantity ["0 pcs"] begins with the integer
    0 followed by other text, [asQty] rejects it and the item is
    dropped; the same holds for ["-3 pcs"]. *)
Lemma asQty_rejects_leading_zero :
  coerced (JStr "0 pcs") = Ok ("0" ++ " pcs")%string
  /\ asQty (JStr "0 pcs") = Ok None
  /\ line_of_item (item (JStr "abc co") (JStr "xy-100") (JStr "0 pcs"))
     = Ok None
  /\ asQty (JStr "-3 pcs") = Ok None
  /\ option_map lines
       (match transformAiToDraft
                (JObj [("items",
                        JArr [item (JStr "abc co") (JStr "xy-100")
                                   (JStr "0 pcs")])])
        with Ok d => Some d | Throw _ => None end)
     = Some [].
Proof. repeat split. Qed.

(** ** The datastore client *)

Lemma attempts_app (t : Table) (s s' : Store) (l l' : list Request) :
  attempts t {| store := s; wire := l ++ l' |}
  = attempts t {| store := s'; wire := l |}
    + length (List.filter (fun r => table_eqb (request_table r) t) l').
Proof. unfold attempts; simpl. now rewrite filter_app, length_app. Qed.

Lemma attempts_sent (t : Table) (r : Request) (w : World) :
  attempts t (sent r w)
  = attempts t w + (if table_eqb (request_table r) t then 1 else 0).
Proof.
  unfold sent. rewrite (attempts_app t (store w) (store w)).
  simpl. destruct w; simpl. now destruct (table_eqb (request_table r) t).
Qed.

Section ClientFacts.

Variable faults : Faults.

Lemma insert_accepted {P} (t : Table)
      (add : Stored P -> Store -> Store) (payload : P) (w : World) :
  faults t (attempts t w) = None ->
  insert faults t add payload w
  = (Ok {| data := Some (fresh_id (next_id (store w)));
           error := None |},
     {| store := add {| row_id := fresh_id (next_id (store w));
                        row := payload |} (store w);
        wire := wire w ++ [Insert t] |}).
Proof. intro H. unfold insert. now rewrite H. Qed.

Lemma insert_refused {P} (t : Table)
      (add : Stored P -> Store -> Store) (payload : P) (w : World)
      (e : PostgrestError) :
  faults t (attempts t w) = Some e ->
  insert faults t add payload w
  = (Ok {| data := None; error := Some e |}, sent (Insert t) w).
Proof. intro H. unfold insert. now rewrite H. Qed.

(** [resolveBrand] always returns, sends one lookup and writes
    nothing. *)
Lemma resolveBrand_run (input : string) (w : World) :
  resolveBrand faults input w
  = (Ok (resolved_brand faults w input), sent (Select T_brand_alias) w).
Proof.
  unfold resolveBrand, bind, select_brand_alias, resolved_brand,
    resolve_in, alias_row, brand_of_alias.
  destruct (faults T_brand_alias (attempts T_brand_alias w));
    simpl; [reflexivity |].
  destruct (find _ (brand_alias (store w))); reflexivity.
Qed.

End ClientFacts.

Lemma find_some_alias (aliases : list BrandAlias.t) (input : string)
      (r : BrandAlias.t) :
  alias_row aliases input = Some r ->
  In r aliases /\ BrandAlias.alias r = input.
Proof.
  intro H. apply find_some in H. destruct H as [Hin E].
  apply String.eqb_eq in E. auto.
Qed.

Lemma find_none_alias (aliases : list BrandAlias.t) (input : string) :
  alias_row aliases input = None <->
  forall r, In r aliases -> BrandAlias.alias r <> input.
Proof.
  unfold alias_row. split.
  - intros H r Hin E.
    pose proof (find_none _ _ H r Hin) as N. simpl in N.
    apply String.eqb_neq in N. contradiction.
  - intro H. destruct (find _ aliases) as [r |] eqn:F; [| reflexivity].
    apply find_some_alias in F. destruct F as [Hin E].
    now elim (H r Hin).
Qed.

(** C6, amended.  [resolveBrand] never fails and writes nothing.  When
    the lookup is answered and the alias table has an entry whose alias
    is the input, it returns the standard brand of such an entry,
    trimmed and upper-cased, or the input upper-cased when that
    standard brand is blank; when the table has no such entry, or when
    the lookup errors, it returns the input unchanged.  With the table
    [{"ABCCO": "ABC CORP"}], ["ABCCO"] resolves to ["ABC CORP"] and
    ["UNKNOWN"] to itself. *)
Theorem resolveBrand_alias_or_input :
  (forall (faults : Faults) (input : string) (w : World),
      exists out,
        resolveBrand faults input w
        = (Ok out, sent (Select T_brand_alias) w)
        /\ (forall e,
              faults T_brand_alias (attempts T_brand_alias w) = Some e ->
              out = input)
        /\ (faults T_brand_alias (attempts T_brand_alias w) = None ->
            (forall r, In r (brand_alias (store w)) ->
                       BrandAlias.alias r <> input) ->
            out = input)
        /\ (faults T_brand_alias (attempts T_brand_alias w) = None ->
            (exists r, In r (brand_alias (store w))
                       /\ BrandAlias.alias r = input) ->
            exists r, In r (brand_alias (store w))
                      /\ BrandAlias.alias r = input
                      /\ out = toUpperCase
                                 (or_else
                                    (trim (BrandAlias.standard_brand r))
                                    input)))
  /\ fst (resolveBrand no_faults "ABCCO" (connect demo_store))
     = Ok "ABC CORP"
  /\ fst (resolveBrand no_faults "UNKNOWN" (connect demo_store))
     = Ok "UNKNOWN".
Proof.
  split; [| split; reflexivity].
  intros faults input w.
  exists (resolved_brand faults w input).
  split; [apply resolveBrand_run |].
  unfold resolved_brand, resolve_in. repeat split.
  - intros e ->. reflexivity.
  - intros -> H. apply find_none_alias in H. now rewrite H.
  - intros -> (r & Hin & E).
    destruct (alias_row (brand_alias (store w)) input) as [r' |] eqn:F.
    + apply find_some_alias in F. destruct F as [Hin' E'].
      exists r'. auto.
    + exfalso. rewrite find_none_alias in F. exact (F r Hin E).
Qed.

(** C6 as stated fails: a standard brand stored with blanks around it
    comes back trimmed, not merely upper-cased, and for a blank
    standard brand the input comes back upper-cased. *)
Lemma resolveBrand_trims_standard_brand :
  fst (resolveBrand no_faults "ABCCO" (connect padded_alias_store))
  = Ok "ABC CORP"
  /\ toUpperCase " abc corp " = " ABC CORP "
  /\ fst (resolveBrand no_faults "acme" (connect padded_alias_store))
     = Ok "ACME"
  /\ toUpperCase "" = "".
Proof. repeat split. Qed.

(** ** The two loops of the persistence chain *)

Section Loops.

Variable faults : Faults.
Variable userId : string.

Lemma attempts_after_line (t : Table) (inquiry : Id) (w : World)
      (l : DraftLine) :
  attempts t (after_line faults userId inquiry w l)
  = attempts t w
    + (if table_eqb T_brand_alias t then 1 else 0)
    + (if table_eqb T_inquiry_items t then 1 else 0).
Proof.
  unfold after_line. rewrite (attempts_app t _ (store w)).
  destruct w; destruct t; simpl; lia.
Qed.

Lemma attempts_after_item (t : Table) (quotation : Id) (w : World)
      (it : SavedItem.t) :
  attempts t (after_item faults userId quotation w it)
  = attempts t w
    + (if table_eqb T_price_list t then 1 else 0)
    + (if table_eqb T_quotation_items t then 1 else 0).
Proof.
  unfold after_item. rewrite (attempts_app t _ (store w)).
  destruct w; destruct t; simpl; lia.
Qed.

(** One turn of the first loop whose insert is accepted. *)
Lemma save_lines_step (inquiry : Id) (line : DraftLine)
      (rest : list DraftLine) (acc : list SavedItem.t) (w : World) :
  faults T_inquiry_items (attempts T_inquiry_items w) = None ->
  save_lines faults inquiry userId (line :: rest) acc w
  = save_lines faults inquiry userId rest
      (acc ++ [line_saved faults w line])
      (after_line faults userId inquiry w line).
Proof.
  intro H. simpl. unfold bind at 1. rewrite resolveBrand_run.
  unfold bind at 1. rewrite insert_accepted.
  - simpl. unfold after_line, line_row, line_saved.
    now rewrite <- app_assoc.
  - now rewrite attempts_sent, Nat.add_0_r.
Qed.

(** One turn of the first loop whose insert is refused. *)
Lemma save_lines_refused (inquiry : Id) (line : DraftLine)
      (rest : list DraftLine) (acc : list SavedItem.t) (w : World)
      (e : PostgrestError) :
  faults T_inquiry_items (attempts T_inquiry_items w) = Some e ->
  save_lines faults inquiry userId (line :: rest) acc w
  = (Throw (Error ("Create inquiry item failed: "
                     ++ message_or_unknown (Some e))%string),
     {| store := store w;
        wire := wire w
                ++ [Select T_brand_alias; Insert T_inquiry_items] |}).
Proof.
  intro H. simpl. unfold bind at 1. rewrite resolveBrand_run.
  unfold bind at 1. rewrite insert_refused with (e := e).
  - simpl. unfold throw, sent. simpl. now rewrite <- app_assoc.
  - now rewrite attempts_sent, Nat.add_0_r.
Qed.

(** The first loop over lines whose inserts are all accepted. *)
Lemma save_lines_prefix (inquiry : Id) (pre rest : list DraftLine) :
  forall (acc : list SavedItem.t) (w : World),
    (forall j, j < length pre ->
               faults T_inquiry_items (attempts T_inquiry_items w + j)
               = None) ->
    save_lines faults inquiry userId (pre ++ rest) acc w
    = save_lines faults inquiry userId rest
        (acc ++ saved_of_lines faults userId inquiry w pre)
        (after_lines faults userId inquiry w pre).
Proof.
  induction pre as [| l pre' IH]; intros acc w H.
  - simpl. now rewrite app_nil_r.
  - cbn [app]. rewrite save_lines_step.
    + rewrite IH.
      * cbn [saved_of_lines after_lines]. now rewrite <- app_assoc.
      * intros j Hj. rewrite attempts_after_line. simpl.
        replace (attempts T_inquiry_items w + 0 + 1 + j)
          with (attempts T_inquiry_items w + S j) by lia.
        apply H. simpl. lia.
    + specialize (H 0). rewrite Nat.add_0_r in H. apply H. simpl. lia.
Qed.

Lemma select_price_list_run (it : SavedItem.t) (w : World) :
  exists err,
    select_price_list faults (SavedItem.brandStandard it)
      (SavedItem.normalizedCatalog it) w
    = (Ok {| data := price_hit faults w it; error := err |},
       sent (Select T_price_list) w).
Proof.
  unfold select_price_list, price_hit.
  destruct (faults T_price_list (attempts T_price_list w)); [eauto |].
  destruct (price_matches _ _ (store w)) as [| r [| r' rest]]; eauto.
Qed.

(** One turn of the second loop whose insert is accepted. *)
Lemma save_quotation_items_step (quotation : Id) (it : SavedItem.t)
      (rest : list SavedItem.t) (w : World) :
  faults T_quotation_items (attempts T_quotation_items w) = None ->
  save_quotation_items faults quotation userId (it :: rest) w
  = save_quotation_items faults quotation userId rest
      (after_item faults userId quotation w it).
Proof.
  intro H. simpl. unfold bind at 1.
  destruct (select_price_list_run it w) as (err & ->).
  unfold bind at 1. rewrite insert_accepted.
  - simpl. unfold after_item, item_row. now rewrite <- app_assoc.
  - now rewrite attempts_sent, Nat.add_0_r.
Qed.


End Loops.

Section LoopFacts.

Variable faults : Faults.
Variable userId : string.

(** What the first loop leaves in the store and on the wire. *)
Lemma after_lines_frame (inquiry : Id) (ls : list DraftLine) :
  forall w : World,
    let w' := after_lines faults userId inquiry w ls in
    inquiries (store w') = inquiries (store w)
    /\ inquiry_items (store w')
       = inquiry_items (store w)
         ++ rows_of_lines faults userId inquiry w ls
    /\ quotations (store w') = quotations (store w)
    /\ quotation_items (store w') = quotation_items (store w)
    /\ brand_alias (store w') = brand_alias (store w)
    /\ price_list (store w') = price_list (store w)
    /\ next_id (store w') = next_id (store w) + length ls
    /\ wire w' = wire w ++ line_requests (length ls).
Proof.
  induction ls as [| l rest IH]; intro w; cbn zeta.
  - simpl. rewrite !app_nil_r. repeat split; lia.
  - cbn [after_lines rows_of_lines length line_requests].
    destruct (IH (after_line faults userId inquiry w l))
      as (I1 & I2 & I3 & I4 & I5 & I6 & I7 & I8).
    rewrite I1, I2, I3, I4, I5, I6, I7, I8. simpl.
    rewrite <- !app_assoc. simpl. repeat split; lia.
Qed.

Lemma attempts_after_lines (t : Table) (inquiry : Id)
      (ls : list DraftLine) :
  forall w : World,
    attempts t (after_lines faults userId inquiry w ls)
    = attempts t w
      + (if table_eqb T_brand_alias t then length ls else 0)
      + (if table_eqb T_inquiry_items t then length ls else 0).
Proof.
  induction ls as [| l rest IH]; intro w; simpl.
  - destruct t; simpl; lia.
  - rewrite IH, attempts_after_line. destruct t; simpl; lia.
Qed.

(** The rows of the first loop are those of the lines, in order. *)
Lemma rows_of_lines_for (inquiry : Id) (ls : list DraftLine) :
  forall w : World,
    Forall2 (fun line r =>
               item_for_line line r
               /\ InquiryItem.inquiry_id (row r) = inquiry
               /\ InquiryItem.user_id (row r) = userId)
            ls (rows_of_lines faults userId inquiry w ls).
Proof.
  induction ls as [| l rest IH]; intro w; simpl; constructor.
  - unfold item_for_line. simpl. auto.
  - apply IH.
Qed.


(** What the second loop leaves in the store and on the wire. *)
Lemma after_items_frame (quotation : Id) (its : list SavedItem.t) :
  forall w : World,
    let w' := after_items faults userId quotation w its in
    inquiries (store w') = inquiries (store w)
    /\ inquiry_items (store w') = inquiry_items (store w)
    /\ quotations (store w') = quotations (store w)
    /\ quotation_items (store w')
       = quotation_items (store w)
         ++ rows_of_items faults userId quotation w its
    /\ brand_alias (store w') = brand_alias (store w)
    /\ price_list (store w') = price_list (store w)
    /\ wire w' = wire w ++ item_requests (length its).
Proof.
  induction its as [| it rest IH]; intro w; cbn zeta.
  - simpl. rewrite !app_nil_r. repeat split.
  - cbn [after_items rows_of_items length item_requests].
    destruct (IH (after_item faults userId quotation w it))
      as (I1 & I2 & I3 & I4 & I5 & I6 & I7).
    rewrite I1, I2, I3, I4, I5, I6, I7. simpl.
    rewrite <- !app_assoc. simpl. repeat split.
Qed.



End LoopFacts.

Section ChainFacts.

Variable faults : Faults.
Variable env : ProcessEnv.
Variable draft : Draft.
Variable s : Store.

Lemma configured_passes :
  configured env ->
  negb (truthy (text_env (SUPABASE_URL env) ""))
  || negb (truthy (text_env (SUPABASE_SERVICE_ROLE_KEY env) ""))
  || negb (truthy (text_env (SANDBOX_OWNER_USER_ID env) "")) = false.
Proof.
  intros (U & K & O). apply truthy_nonempty in U, K, O.
  now rewrite U, K, O.
Qed.

Lemma save_lines_all (inquiry : Id) (ls : list DraftLine)
      (acc : list SavedItem.t) (w : World) :
  (forall j, j < length ls ->
             faults T_inquiry_items (attempts T_inquiry_items w + j)
             = None) ->
  save_lines faults inquiry (owner env) ls acc w
  = (Ok (acc ++ saved_of_lines faults (owner env) inquiry w ls),
     after_lines faults (owner env) inquiry w ls).
Proof.
  intro H. rewrite <- (app_nil_r ls) at 1.
  now rewrite save_lines_prefix.
Qed.


(** The run in which the Inquiry and the InquiryItems of [pre] are
    accepted and the next InquiryItem is refused. *)
Lemma persist_run_refused_item (pre post : list DraftLine)
      (line : DraftLine) (e : PostgrestError) :
  configured env -> lines draft = pre ++ line :: post ->
  faults T_inquiries 0 = None ->
  (forall j, j < length pre -> faults T_inquiry_items j = None) ->
  faults T_inquiry_items (length pre) = Some e ->
  saveDraftToSupabase env faults draft (connect s)
  = (Throw (Error ("Create inquiry item failed: "
                     ++ message_or_unknown (Some e))%string),
     {| store := store (with_lines faults env draft s pre);
        wire := wire (with_lines faults env draft s pre)
                ++ [Select T_brand_alias; Insert T_inquiry_items] |}).
Proof.
  intros C L F0 Fpre Fk. unfold saveDraftToSupabase.
  rewrite (configured_passes C), L.
  destruct (Nat.eqb_spec (length (pre ++ line :: post)) 0) as [E | _].
  { rewrite length_app in E. simpl in E. lia. }
  fold (owner env).
  unfold bind at 1. rewrite insert_accepted by exact F0. simpl.
  unfold bind at 1. rewrite save_lines_prefix by exact Fpre.
  rewrite save_lines_refused with (e := e).
  - reflexivity.
  - rewrite attempts_after_lines. simpl. exact Fk.
Qed.

End ChainFacts.



Lemma line_requests_snoc (n : nat) :
  line_requests n ++ [Select T_brand_alias; Insert T_inquiry_items]
  = line_requests (S n).
Proof. induction n as [| n IH]; simpl; [| rewrite IH]; reflexivity. Qed.

Lemma Forall2_same_length {A B} (R : A -> B -> Prop) (xs : list A)
      (ys : list B) :
  Forall2 R xs ys -> length ys = length xs.
Proof. induction 1; simpl; congruence. Qed.

(** ** The claims about persistence *)



(** C2.  When the configuration is present, the Inquiry insert and the
    InquiryItem inserts of the lines before line k are accepted and the
    InquiryItem insert of line k is refused, [saveDraftToSupabase]
    throws at once, and the store afterwards is the store before with
    exactly the Inquiry row and the k-1 InquiryItem rows of the lines
    before k, in order: no Quotation, no QuotationItem, no InquiryItem
    for line k or later; the requests sent are the Inquiry insert and
    k pairs of alias lookup and InquiryItem insert, so nothing was
    deleted. *)
Theorem persist_item_failure_keeps_earlier_rows :
  forall (env : ProcessEnv) (faults : Faults) (draft : Draft) (s : Store)
         (pre post : list DraftLine) (line : DraftLine)
         (e : PostgrestError),
    configured env ->
    lines draft = pre ++ line :: post ->
    faults T_inquiries 0 = None ->
    (forall j, j < length pre -> faults T_inquiry_items j = None) ->
    faults T_inquiry_items (length pre) = Some e ->
    exists w' inq items,
      saveDraftToSupabase env faults draft (connect s)
      = (Throw (Error ("Create inquiry item failed: "
                         ++ or_else (message e) "unknown")%string), w')
      /\ inquiries (store w') = inquiries s ++ [inq]
      /\ inquiry_items (store w') = inquiry_items s ++ items
      /\ length items = length pre
      /\ Forall2 (fun l r =>
                    item_for_line l r
                    /\ InquiryItem.inquiry_id (row r) = row_id inq)
                 pre items
      /\ quotations (store w') = quotations s
      /\ quotation_items (store w') = quotation_items s
      /\ brand_alias (store w') = brand_alias s
      /\ price_list (store w') = price_list s
      /\ wire w' = Insert T_inquiries :: line_requests (S (length pre))
      /\ (forall t, ~ In (Delete t) (wire w')).
Proof.
  intros env faults draft s pre post line e C L F0 Fpre Fk.
  pose proof (rows_of_lines_for faults (owner env)
                (row_id (new_inquiry env draft s)) pre
                (with_inquiry env draft s)) as Rows.
  destruct (after_lines_frame faults (owner env)
              (row_id (new_inquiry env draft s)) pre
              (with_inquiry env draft s))
    as (L1 & L2 & L3 & L4 & L5 & L6 & _ & L8).
  fold (with_lines faults env draft s pre) in L1, L2, L3, L4, L5, L6, L8.
  fold (new_items faults env draft s pre) in L2, Rows.
  simpl in L1, L2, L3, L4, L5, L6, L8.
  assert (W : wire (with_lines faults env draft s pre)
              ++ [Select T_brand_alias; Insert T_inquiry_items]
              = Insert T_inquiries :: line_requests (S (length pre))).
  { rewrite L8. cbn [app]. now rewrite line_requests_snoc. }
  eexists _, (new_inquiry env draft s), (new_items faults env draft s pre).
  split.
  { rewrite persist_run_refused_item
      with (pre := pre) (post := post) (line := line) (e := e)
      by assumption.
    reflexivity. }
  cbn [store wire].
  split; [exact L1 |].
  split; [exact L2 |].
  split; [exact (Forall2_same_length Rows) |].
  split.
  { clear - Rows.
    induction Rows as [| l r ls rs (I & Q & _) _ IH]; constructor; auto. }
  split; [exact L3 |].
  split; [exact L4 |].
  split; [exact L5 |].
  split; [exact L6 |].
  split; [exact W |].
  intros t Hin. rewrite W in Hin. clear - Hin.
  destruct Hin as [H | H]; [discriminate |].
  induction (S (length pre)) as [| n IH]; simpl in H; [contradiction |].
  destruct H as [H | [H | H]]; try discriminate. auto.
Qed.

Lemma persist_item_failure_keeps_earlier_rows_witness :
  exists w' inq items,
    saveDraftToSupabase demo_env refuse_second_item
      (demo_draft [demo_line "ABCCO" "XY-100" 5; demo_line "ZZ" "Q 1" 2;
                   demo_line "ZZ" "Q 2" 1])
      (connect demo_store)
    = (Throw (Error "Create inquiry item failed: connection reset"), w')
    /\ inquiries (store w') = inquiries demo_store ++ [inq]
    /\ inquiry_items (store w') = inquiry_items demo_store ++ items
    /\ length items = 1
    /\ Forall2 (fun l r =>
                  item_for_line l r
                  /\ InquiryItem.inquiry_id (row r) = row_id inq)
               [demo_line "ABCCO" "XY-100" 5] items
    /\ quotations (store w') = quotations demo_store
    /\ quotation_items (store w') = quotation_items demo_store
    /\ brand_alias (store w') = brand_alias demo_store
    /\ price_list (store w') = price_list demo_store
    /\ wire w' = Insert T_inquiries :: line_requests 2
    /\ (forall t, ~ In (Delete t) (wire w')).
Proof.
  apply (@persist_item_failure_keeps_earlier_rows demo_env
           refuse_second_item
           (demo_draft [demo_line "ABCCO" "XY-100" 5;
                        demo_line "ZZ" "Q 1" 2; demo_line "ZZ" "Q 2" 1])
           demo_store
           [demo_line "ABCCO" "XY-100" 5] [demo_line "ZZ" "Q 2" 1]
           (demo_line "ZZ" "Q 1" 2)
           {| message := "connection reset" |}).
  - repeat split; discriminate.
  - reflexivity.
  - reflexivity.
  - intros j Hj. simpl in Hj. destruct j; [reflexivity | lia].
  - reflexivity.
Defined.

(** C3.  For a draft without lines, [saveDraftToSupabase] throws and
    sends no request: the store is unchanged, so no Inquiry,
    InquiryItem, Quotation or QuotationItem row is created; with the
    configuration present, the exception is the validation error
    ["No valid lines to save."]. *)
Theorem persist_empty_draft_writes_nothing :
  forall (env : ProcessEnv) (faults : Faults) (draft : Draft) (s : Store),
    lines draft = [] ->
    exists err,
      saveDraftToSupabase env faults draft (connect s)
      = (Throw err, connect s)
      /\ (configured env -> err = Error "No valid lines to save.").
Proof.
  intros env faults draft s E. unfold saveDraftToSupabase.
  rewrite E. simpl.
  destruct (negb (truthy (text_env (SUPABASE_URL env) ""))
            || negb (truthy (text_env (SUPABASE_SERVICE_ROLE_KEY env) ""))
            || negb (truthy (text_env (SANDBOX_OWNER_USER_ID env) "")))
    eqn:Cfg.
  - eexists; split; [reflexivity |].
    intro C. rewrite (configured_passes C) in Cfg. discriminate.
  - eexists; split; reflexivity.
Qed.

Lemma persist_empty_draft_writes_nothing_witness :
  exists err,
    saveDraftToSupabase demo_env no_faults (demo_draft [])
                        (connect demo_store)
    = (Throw err, connect demo_store)
    /\ (configured demo_env -> err = Error "No valid lines to save.").
Proof.
  apply (@persist_empty_draft_writes_nothing demo_env no_faults
           (demo_draft []) demo_store).
  reflexivity.
Defined.

(** ** Order of the inserted InquiryItems, in any run *)

Section AnyRun.

Variable faults : Faults.
Variable userId : string.




End AnyRun.



(** ** The handler *)

Section HandlerFacts.

Variable env : ProcessEnv.
Variable faults : Faults.
Variable JSON_parse : string -> Result JsValue.
Variable pullLatestEmail : Result Mail.t.
Variable aiExtract : Ai.input -> Result Ai.t.

(** Without the save flag the [try] block leaves the world alone,
    and answers with what it pulled, extracted and normalised. *)
Lemma run_without_save (req : HttpRequest) (w : World) :
  (forall b, request_body JSON_parse req = Ok b -> save_flag b = false) ->
  snd (run env faults JSON_parse pullLatestEmail aiExtract req w) = w
  /\ forall answer,
      fst (run env faults JSON_parse pullLatestEmail aiExtract req w)
      = Ok answer <->
      exists b mail ai draft,
        request_body JSON_parse req = Ok b
        /\ pullLatestEmail = Ok mail
        /\ aiExtract (ai_input mail) = Ok ai
        /\ transformAiToDraft (Ai.json ai) = Ok draft
        /\ answer = Success false (mail_summary mail) (Ai.model ai)
                            (Ai.json ai) draft None.
Proof.
  intro NoSave. unfold run, bind, lift, ai_input.
  destruct (request_body JSON_parse req) as [b | e] eqn:B; simpl.
  2: { split; [reflexivity |]. intro a; split; [discriminate |].
       intros (? & ? & ? & ? & H & _); discriminate. }
  rewrite (NoSave b eq_refl).
  destruct pullLatestEmail as [mail | e] eqn:M; simpl.
  2: { split; [reflexivity |]. intro a; split; [discriminate |].
       intros (? & ? & ? & ? & _ & H & _); discriminate. }
  destruct (aiExtract _) as [ai | e] eqn:A; simpl.
  2: { split; [reflexivity |]. intro a; split; [discriminate |].
       intros (? & m & ? & ? & _ & H & H' & _).
       injection H as <-. rewrite A in H'. discriminate. }
  destruct (transformAiToDraft (Ai.json ai)) as [draft | e] eqn:T; simpl.
  2: { split; [reflexivity |]. intro a; split; [discriminate |].
       intros (? & m & a' & ? & _ & H & H' & H'' & _).
       injection H as <-. rewrite A in H'. injection H' as <-.
       rewrite T in H''. discriminate. }
  split; [reflexivity |]. intro answer; split.
  - intro H. injection H as <-. exists b, mail, ai, draft. auto.
  - intros (? & m & a' & d' & _ & H & H' & H'' & ->).
    injection H as <-. rewrite A in H'. injection H' as <-.
    rewrite T in H''. injection H'' as <-. reflexivity.
Qed.

End HandlerFacts.

(** C10.  When the body of the request has no truthy [save], the
    handler sends no request to the datastore and leaves it as it was
    (whatever the configuration and the faults, so the persistence
    step is not run); an answer 200 carries [save: false], [saved:
    null], the summary of the mail pulled, the extraction and its
    draft; and the handler gives that answer whenever the request is an
    authorised POST and the body, the mail, the extraction and the
    normalisation are obtained. *)
Theorem handler_without_save_writes_nothing :
  forall (env : ProcessEnv) (faults : Faults)
         (JSON_parse : string -> Result JsValue)
         (pullLatestEmail : Result Mail.t)
         (aiExtract : Ai.input -> Result Ai.t)
         (req : HttpRequest) (w : World),
    (forall b, request_body JSON_parse req = Ok b -> save_flag b = false) ->
    let answer :=
      fst (handler env faults JSON_parse pullLatestEmail aiExtract req w) in
    snd (handler env faults JSON_parse pullLatestEmail aiExtract req w) = w
    /\ (forall save mail model json draft saved,
          answer = Success save mail model json draft saved ->
          save = false /\ saved = None
          /\ exists m ai,
              pullLatestEmail = Ok m
              /\ aiExtract (ai_input m) = Ok ai
              /\ mail = mail_summary m
              /\ model = Ai.model ai /\ json = Ai.json ai
              /\ transformAiToDraft json = Ok draft)
    /\ (forall b m ai draft,
          method req = "POST" -> unauthorized env req = false ->
          request_body JSON_parse req = Ok b ->
          pullLatestEmail = Ok m ->
          aiExtract (ai_input m) = Ok ai ->
          transformAiToDraft (Ai.json ai) = Ok draft ->
          answer = Success false (mail_summary m) (Ai.model ai)
                           (Ai.json ai) draft None).
Proof.
  intros env faults JSON_parse pullLatestEmail aiExtract req w NoSave.
  destruct (run_without_save env faults JSON_parse pullLatestEmail
              aiExtract req w NoSave) as (Same & Answer).
  cbn zeta. unfold handler.
  destruct (String.eqb_spec (method req) "POST") as [Post | NotPost];
    simpl.
  2: { repeat split; try discriminate. intros; contradiction. }
  destruct (unauthorized env req) eqn:Auth.
  { repeat split; try discriminate. }
  destruct (run env faults JSON_parse pullLatestEmail aiExtract req w)
    as [[answer | err] w1]; simpl in Same, Answer |- *.
  - split; [exact Same |]. split.
    + intros save mail model json draft saved ->.
      destruct (proj1 (Answer _) eq_refl)
        as (b & m & ai & d & _ & M & A & T & E).
      injection E as -> -> -> -> -> ->. eauto 12.
    + intros b m ai draft _ _ B M A T.
      assert (E : Ok answer
                  = Ok (Success false (mail_summary m) (Ai.model ai)
                                (Ai.json ai) draft None)).
      { apply Answer. exists b, m, ai, draft. auto. }
      now injection E.
  - split; [exact Same |]. split; [discriminate |].
    intros b m ai draft _ _ B M A T. exfalso.
    assert (E : @Throw HttpResponse err
                = Ok (Success false (mail_summary m) (Ai.model ai)
                              (Ai.json ai) draft None)).
    { apply Answer. exists b, m, ai, draft. auto. }
    discriminate.
Qed.

Lemma handler_without_save_writes_nothing_witness :
  let answer :=
    fst (handler demo_env no_faults no_parse (Ok demo_mail) demo_ai
                 (demo_request (JObj [("save", JBool false)]))
                 (connect demo_store)) in
  snd (handler demo_env no_faults no_parse (Ok demo_mail) demo_ai
               (demo_request (JObj [("save", JBool false)]))
               (connect demo_store)) = connect demo_store
  /\ (forall save mail model json draft saved,
        answer = Success save mail model json draft saved ->
        save = false /\ saved = None
        /\ exists m ai,
            Ok demo_mail = Ok m
            /\ demo_ai (ai_input m) = Ok ai
            /\ mail = mail_summary m
            /\ model = Ai.model ai /\ json = Ai.json ai
            /\ transformAiToDraft json = Ok draft)
  /\ (forall b m ai draft,
        method (demo_request (JObj [("save", JBool false)])) = "POST" ->
        unauthorized demo_env
          (demo_request (JObj [("save", JBool false)])) = false ->
        request_body no_parse
          (demo_request (JObj [("save", JBool false)])) = Ok b ->
        Ok demo_mail = Ok m ->
        demo_ai (ai_input m) = Ok ai ->
        transformAiToDraft (Ai.json ai) = Ok draft ->
        answer = Success false (mail_summary m) (Ai.model ai)
                         (Ai.json ai) draft None).
Proof.
  apply (@handler_without_save_writes_nothing demo_env no_faults no_parse
           (Ok demo_mail) demo_ai
           (demo_request (JObj [("save", JBool false)]))
           (connect demo_store)).
  intros b H. simpl in H. injection H as <-. reflexivity.
Defined.

(* ================================================================= *)
(** * Further properties of the code *)

(** ** Other ways the persistence chain stops *)

(** Without one of the three configuration variables (unset or
    blank), [saveDraftToSupabase] throws the configuration error before
    looking at the draft and before any request. *)
Theorem persist_without_configuration :
  forall (env : ProcessEnv) (faults : Faults) (draft : Draft) (s : Store),
    ~ configured env ->
    saveDraftToSupabase env faults draft (connect s)
    = (Throw (Error
        "Missing SUPABASE_URL/SUPABASE_SERVICE_ROLE_KEY/SANDBOX_OWNER_USER_ID"),
       connect s).
Proof.
  intros env faults draft s N. unfold saveDraftToSupabase.
  destruct (truthy (text_env (SUPABASE_URL env) "")) eqn:U;
    [| reflexivity].
  destruct (truthy (text_env (SUPABASE_SERVICE_ROLE_KEY env) "")) eqn:K;
    [| reflexivity].
  destruct (truthy (text_env (SANDBOX_OWNER_USER_ID env) "")) eqn:O;
    [| reflexivity].
  exfalso. apply N. apply truthy_nonempty in U, K, O.
  repeat split; assumption.
Qed.

Lemma persist_without_configuration_witness :
  saveDraftToSupabase blank_env no_faults (demo_draft two_lines)
                      (connect demo_store)
  = (Throw (Error
      "Missing SUPABASE_URL/SUPABASE_SERVICE_ROLE_KEY/SANDBOX_OWNER_USER_ID"),
     connect demo_store).
Proof.
  apply (@persist_without_configuration blank_env no_faults
           (demo_draft two_lines) demo_store).
  intros (_ & K & _). apply K. reflexivity.
Defined.

(** When the Inquiry insert is refused, the chain stops with
    ["Create inquiry failed: "] and the error's message (["unknown"]
    for an empty one); the store is as before and the insert is the
    only request sent. *)
Theorem persist_inquiry_refused :
  forall (env : ProcessEnv) (faults : Faults) (draft : Draft) (s : Store)
         (e : PostgrestError),
    configured env ->
    lines draft <> [] ->
    faults T_inquiries 0 = Some e ->
    saveDraftToSupabase env faults draft (connect s)
    = (Throw (Error ("Create inquiry failed: "
                       ++ or_else (message e) "unknown")%string),
       {| store := s; wire := [Insert T_inquiries] |}).
Proof.
  intros env faults draft s e C N F. unfold saveDraftToSupabase.
  rewrite (configured_passes C).
  destruct (Nat.eqb_spec (length (lines draft)) 0) as [E | _].
  { destruct (lines draft); [congruence | discriminate]. }
  unfold bind at 1. rewrite insert_refused with (e := e) by exact F.
  reflexivity.
Qed.

Lemma persist_inquiry_refused_witness :
  saveDraftToSupabase demo_env refuse_inquiry (demo_draft two_lines)
                      (connect demo_store)
  = (Throw (Error "Create inquiry failed: unknown"),
     {| store := demo_store; wire := [Insert T_inquiries] |}).
Proof.
  apply (@persist_inquiry_refused demo_env refuse_inquiry
           (demo_draft two_lines) demo_store {| message := "" |}).
  - repeat split; discriminate.
  - discriminate.
  - reflexivity.
Defined.

Section MoreLoopFacts.

Variable faults : Faults.
Variable userId : string.


(** One turn of the second loop whose insert is refused. *)
Lemma save_quotation_items_refused (quotation : Id) (it : SavedItem.t)
      (rest : list SavedItem.t) (w : World) (e : PostgrestError) :
  faults T_quotation_items (attempts T_quotation_items w) = Some e ->
  save_quotation_items faults quotation userId (it :: rest) w
  = (Throw (Error ("Create quotation item failed: " ++ message e)%string),
     {| store := store w;
        wire := wire w ++ [Select T_price_list; Insert T_quotation_items]
     |}).
Proof.
  intro H. simpl. unfold bind at 1.
  destruct (select_price_list_run faults it w) as (err & ->).
  unfold bind at 1. rewrite insert_refused with (e := e).
  - simpl. unfold throw, sent. simpl. now rewrite <- app_assoc.
  - now rewrite attempts_sent, Nat.add_0_r.
Qed.

(** The second loop stopped by the refusal of its insert number [k]. *)
Lemma save_quotation_items_until (quotation : Id) (e : PostgrestError) :
  forall (its : list SavedItem.t) (k : nat) (w : World),
    k < length its ->
    (forall j, j < k ->
               faults T_quotation_items (attempts T_quotation_items w + j)
               = None) ->
    faults T_quotation_items (attempts T_quotation_items w + k) = Some e ->
    save_quotation_items faults quotation userId its w
    = (Throw (Error ("Create quotation item failed: "
                       ++ message e)%string),
       {| store := store (after_items faults userId quotation w
                            (firstn k its));
          wire := wire (after_items faults userId quotation w
                          (firstn k its))
                  ++ [Select T_price_list; Insert T_quotation_items] |}).
Proof.
  induction its as [| it rest IH]; intros k w Lt Before At.
  - simpl in Lt. lia.
  - destruct k as [| k'].
    + rewrite Nat.add_0_r in At.
      now rewrite save_quotation_items_refused with (e := e).
    + rewrite save_quotation_items_step.
      * rewrite (IH k'); [reflexivity | simpl in Lt; lia | |].
        -- intros j Hj. rewrite attempts_after_item. simpl.
           replace (attempts T_quotation_items w + 0 + 1 + j)
             with (attempts T_quotation_items w + S j) by lia.
           apply Before. lia.
        -- rewrite attempts_after_item. simpl.
           replace (attempts T_quotation_items w + 0 + 1 + k')
             with (attempts T_quotation_items w + S k') by lia.
           exact At.
      * specialize (Before 0). rewrite Nat.add_0_r in Before.
        apply Before. lia.
Qed.

Lemma rows_of_lines_firstn (inquiry : Id) (ls : list DraftLine) :
  forall (k : nat) (w : World),
    firstn k (rows_of_lines faults userId inquiry w ls)
    = rows_of_lines faults userId inquiry w (firstn k ls).
Proof.
  induction ls as [| l rest IH]; intros [| k] w; simpl; try reflexivity.
  now rewrite IH.
Qed.

Lemma saved_of_lines_firstn (inquiry : Id) (ls : list DraftLine) :
  forall (k : nat) (w : World),
    firstn k (saved_of_lines faults userId inquiry w ls)
    = saved_of_lines faults userId inquiry w (firstn k ls).
Proof.
  induction ls as [| l rest IH]; intros [| k] w; simpl; try reflexivity.
  now rewrite IH.
Qed.

Lemma saved_of_lines_length (inquiry : Id) (ls : list DraftLine) :
  forall w : World,
    length (saved_of_lines faults userId inquiry w ls) = length ls.
Proof. induction ls as [| l rest IH]; intro w; simpl; auto. Qed.

Lemma rows_of_items_length (quotation : Id) (its : list SavedItem.t) :
  forall w : World,
    length (rows_of_items faults userId quotation w its) = length its.
Proof. induction its as [| it rest IH]; intro w; simpl; auto. Qed.

(** The rows of the second loop repeat those of the first, whatever
    the lookups answer. *)
Lemma rows_of_items_copies (inquiry quotation : Id)
      (ls : list DraftLine) :
  forall w1 w3 : World,
    Forall2 (quotation_item_copies quotation userId)
            (rows_of_lines faults userId inquiry w1 ls)
            (rows_of_items faults userId quotation w3
               (saved_of_lines faults userId inquiry w1 ls)).
Proof.
  induction ls as [| l rest IH]; intros w1 w3; simpl; constructor.
  - unfold quotation_item_copies. simpl. repeat split.
  - apply IH.
Qed.



End MoreLoopFacts.

Section MoreChainFacts.

Variable faults : Faults.
Variable env : ProcessEnv.
Variable draft : Draft.
Variable s : Store.

Lemma attempts_with_lines (t : Table) (ls : list DraftLine) :
  attempts t (with_lines faults env draft s ls)
  = (if table_eqb T_inquiries t then 1 else 0)
    + (if table_eqb T_brand_alias t then length ls else 0)
    + (if table_eqb T_inquiry_items t then length ls else 0).
Proof.
  unfold with_lines. rewrite attempts_after_lines.
  destruct t; reflexivity.
Qed.

Lemma attempts_with_quotation (t : Table) :
  attempts t (with_quotation faults env draft s)
  = (if table_eqb T_inquiries t then 1 else 0)
    + (if table_eqb T_brand_alias t then length (lines draft) else 0)
    + (if table_eqb T_inquiry_items t then length (lines draft) else 0)
    + (if table_eqb T_quotations t then 1 else 0).
Proof.
  unfold with_quotation.
  rewrite (attempts_app t _ (store (with_lines faults env draft s
                                      (lines draft)))).
  replace {| store := store (with_lines faults env draft s (lines draft));
             wire := wire (with_lines faults env draft s (lines draft)) |}
    with (with_lines faults env draft s (lines draft))
    by (now destruct (with_lines faults env draft s (lines draft))).
  rewrite attempts_with_lines. destruct t; simpl; lia.
Qed.

(** The first half of the chain, when the Inquiry and the
    InquiryItems are accepted. *)
Lemma persist_first_half :
  configured env -> lines draft <> [] ->
  faults T_inquiries 0 = None ->
  (forall j, j < length (lines draft) ->
             faults T_inquiry_items j = None) ->
  saveDraftToSupabase env faults draft (connect s)
  = bind (insert faults T_quotations add_quotation
            (quotation_payload (row_id (new_inquiry env draft s))
               (owner env) draft))
      (fun rq =>
         match error rq, data rq with
         | None, Some quotation =>
             bind (save_quotation_items faults quotation (owner env)
                     (pushed_items faults env draft s))
               (fun _ => ret {| inquiryId := row_id (new_inquiry env draft s);
                                quotationId := quotation |})
         | e, _ =>
             throw (Error ("Create quotation failed: "
                             ++ message_or_unknown e)%string)
         end)
      (with_lines faults env draft s (lines draft)).
Proof.
  intros C N F0 Fi. unfold saveDraftToSupabase.
  rewrite (configured_passes C).
  destruct (Nat.eqb_spec (length (lines draft)) 0) as [E | _].
  { destruct (lines draft); [congruence | discriminate]. }
  fold (owner env).
  unfold bind at 1. rewrite insert_accepted by exact F0. simpl.
  unfold bind at 1. rewrite save_lines_all by exact Fi.
  reflexivity.
Qed.


(** The run in which the Quotation is refused. *)
Lemma persist_run_refused_quotation (e : PostgrestError) :
  configured env -> lines draft <> [] ->
  faults T_inquiries 0 = None ->
  (forall j, j < length (lines draft) ->
             faults T_inquiry_items j = None) ->
  faults T_quotations 0 = Some e ->
  saveDraftToSupabase env faults draft (connect s)
  = (Throw (Error ("Create quotation failed: "
                     ++ message_or_unknown (Some e))%string),
     {| store := store (with_lines faults env draft s (lines draft));
        wire := wire (with_lines faults env draft s (lines draft))
                ++ [Insert T_quotations] |}).
Proof.
  intros C N F0 Fi Fq.
  rewrite (persist_first_half C N F0 Fi).
  unfold bind at 1. rewrite insert_refused with (e := e).
  - reflexivity.
  - rewrite attempts_with_lines. exact Fq.
Qed.

(** The run in which the QuotationItem number [k] is refused. *)
Lemma persist_run_refused_quotation_item (k : nat) (e : PostgrestError) :
  configured env -> lines draft <> [] ->
  faults T_inquiries 0 = None ->
  (forall j, j < length (lines draft) ->
             faults T_inquiry_items j = None) ->
  faults T_quotations 0 = None ->
  k < length (lines draft) ->
  (forall j, j < k -> faults T_quotation_items j = None) ->
  faults T_quotation_items k = Some e ->
  saveDraftToSupabase env faults draft (connect s)
  = (Throw (Error ("Create quotation item failed: " ++ message e)%string),
     {| store := store (after_items faults (owner env)
                          (row_id (new_quotation faults env draft s))
                          (with_quotation faults env draft s)
                          (firstn k (pushed_items faults env draft s)));
        wire := wire (after_items faults (owner env)
                        (row_id (new_quotation faults env draft s))
                        (with_quotation faults env draft s)
                        (firstn k (pushed_items faults env draft s)))
                ++ [Select T_price_list; Insert T_quotation_items] |}).
Proof.
  intros C N F0 Fi Fq Lt Before At.
  rewrite (persist_first_half C N F0 Fi).
  unfold bind at 1. rewrite insert_accepted.
  2: { rewrite attempts_with_lines. exact Fq. }
  simpl. unfold bind at 1.
  fold (new_quotation faults env draft s).
  fold (with_quotation faults env draft s).
  rewrite save_quotation_items_until with (k := k) (e := e).
  - reflexivity.
  - unfold pushed_items. now rewrite saved_of_lines_length.
  - intros j Hj. rewrite attempts_with_quotation. simpl. now apply Before.
  - rewrite attempts_with_quotation. simpl. exact At.
Qed.

End MoreChainFacts.

(** When the Inquiry and the N InquiryItems are accepted and the
    Quotation insert is refused, the chain stops with
    ["Create quotation failed: "] and the error's message; the store
    keeps the new Inquiry and its N InquiryItems, has no new Quotation
    and no new QuotationItem, and no price lookup was sent. *)
Theorem persist_quotation_refused :
  forall (env : ProcessEnv) (faults : Faults) (draft : Draft) (s : Store)
         (e : PostgrestError),
    configured env ->
    lines draft <> [] ->
    faults T_inquiries 0 = None ->
    (forall j, j < length (lines draft) ->
               faults T_inquiry_items j = None) ->
    faults T_quotations 0 = Some e ->
    exists w' inq items,
      saveDraftToSupabase env faults draft (connect s)
      = (Throw (Error ("Create quotation failed: "
                         ++ or_else (message e) "unknown")%string), w')
      /\ inquiries (store w') = inquiries s ++ [inq]
      /\ inquiry_items (store w') = inquiry_items s ++ items
      /\ Forall2 (fun l r =>
                    item_for_line l r
                    /\ InquiryItem.inquiry_id (row r) = row_id inq)
                 (lines draft) items
      /\ quotations (store w') = quotations s
      /\ quotation_items (store w') = quotation_items s
      /\ wire w' = Insert T_inquiries
                   :: line_requests (length (lines draft))
                   ++ [Insert T_quotations].
Proof.
  intros env faults draft s e C N F0 Fi Fq.
  pose proof (rows_of_lines_for faults (owner env)
                (row_id (new_inquiry env draft s)) (lines draft)
                (with_inquiry env draft s)) as Rows.
  destruct (after_lines_frame faults (owner env)
              (row_id (new_inquiry env draft s)) (lines draft)
              (with_inquiry env draft s))
    as (L1 & L2 & L3 & L4 & _ & _ & _ & L8).
  fold (with_lines faults env draft s (lines draft)) in L1, L2, L3, L4, L8.
  fold (new_items faults env draft s (lines draft)) in L2, Rows.
  simpl in L1, L2, L3, L4, L8.
  eexists _, (new_inquiry env draft s),
    (new_items faults env draft s (lines draft)).
  split.
  { rewrite persist_run_refused_quotation with (e := e) by assumption.
    reflexivity. }
  cbn [store wire].
  split; [exact L1 |]. split; [exact L2 |]. split.
  { clear - Rows.
    induction Rows as [| l r ls rs (I & Q & _) _ IH]; constructor; auto. }
  split; [exact L3 |]. split; [exact L4 |].
  now rewrite L8.
Qed.

Lemma persist_quotation_refused_witness :
  exists w' inq items,
    saveDraftToSupabase demo_env refuse_quotation (demo_draft two_lines)
                        (connect demo_store)
    = (Throw (Error "Create quotation failed: timeout"), w')
    /\ inquiries (store w') = inquiries demo_store ++ [inq]
    /\ inquiry_items (store w') = inquiry_items demo_store ++ items
    /\ Forall2 (fun l r =>
                  item_for_line l r
                  /\ InquiryItem.inquiry_id (row r) = row_id inq)
               two_lines items
    /\ quotations (store w') = quotations demo_store
    /\ quotation_items (store w') = quotation_items demo_store
    /\ wire w' = Insert T_inquiries :: line_requests 2
                 ++ [Insert T_quotations].
Proof.
  apply (@persist_quotation_refused demo_env refuse_quotation
           (demo_draft two_lines) demo_store {| message := "timeout" |}).
  - repeat split; discriminate.
  - discriminate.
  - reflexivity.
  - intros j _. reflexivity.
  - reflexivity.
Defined.

(** When everything up to the Quotation is accepted and the insert of
    the QuotationItem number k (from 0) is refused, the chain stops
    with ["Create quotation item failed: "] and the error's message;
    the store keeps the new Inquiry, its N InquiryItems, the new
    Quotation and the k QuotationItems written before, each referring
    to the Quotation and to its InquiryItem. *)
Theorem persist_quotation_item_refused :
  forall (env : ProcessEnv) (faults : Faults) (draft : Draft) (s : Store)
         (k : nat) (e : PostgrestError),
    configured env ->
    lines draft <> [] ->
    faults T_inquiries 0 = None ->
    (forall j, j < length (lines draft) ->
               faults T_inquiry_items j = None) ->
    faults T_quotations 0 = None ->
    k < length (lines draft) ->
    (forall j, j < k -> faults T_quotation_items j = None) ->
    faults T_quotation_items k = Some e ->
    exists w' inq items quo qitems,
      saveDraftToSupabase env faults draft (connect s)
      = (Throw (Error ("Create quotation item failed: "
                         ++ message e)%string), w')
      /\ inquiries (store w') = inquiries s ++ [inq]
      /\ inquiry_items (store w') = inquiry_items s ++ items
      /\ length items = length (lines draft)
      /\ quotations (store w') = quotations s ++ [quo]
      /\ Quotation.inquiry_id (row quo) = row_id inq
      /\ quotation_items (store w') = quotation_items s ++ qitems
      /\ length qitems = k
      /\ Forall2 (quotation_item_copies (row_id quo) (owner env))
                 (firstn k items) qitems.
Proof.
  intros env faults draft s k e C N F0 Fi Fq Lt Before At.
  pose proof (rows_of_lines_for faults (owner env)
                (row_id (new_inquiry env draft s)) (lines draft)
                (with_inquiry env draft s)) as Rows.
  destruct (after_lines_frame faults (owner env)
              (row_id (new_inquiry env draft s)) (lines draft)
              (with_inquiry env draft s))
    as (L1 & L2 & L3 & L4 & _ & _ & _ & _).
  fold (with_lines faults env draft s (lines draft)) in L1, L2, L3, L4.
  fold (new_items faults env draft s (lines draft)) in L2, Rows.
  simpl in L1, L2, L3, L4.
  set (quotation := row_id (new_quotation faults env draft s)).
  destruct (after_items_frame faults (owner env) quotation
              (firstn k (pushed_items faults env draft s))
              (with_quotation faults env draft s))
    as (Q1 & Q2 & Q3 & Q4 & _ & _ & _).
  simpl in Q1, Q2, Q3, Q4.
  pose proof (rows_of_items_copies faults (owner env)
                (row_id (new_inquiry env draft s)) quotation
                (firstn k (lines draft))
                (with_inquiry env draft s)
                (with_quotation faults env draft s)) as Copies.
  rewrite <- saved_of_lines_firstn, <- rows_of_lines_firstn in Copies.
  fold (pushed_items faults env draft s) in Copies.
  fold (new_items faults env draft s (lines draft)) in Copies.
  eexists _, (new_inquiry env draft s),
    (new_items faults env draft s (lines draft)),
    (new_quotation faults env draft s), _.
  split.
  { rewrite persist_run_refused_quotation_item with (k := k) (e := e)
      by assumption.
    reflexivity. }
  cbn [store wire]. fold quotation.
  split; [now rewrite Q1, L1 |].
  split; [now rewrite Q2, L2 |].
  split; [exact (Forall2_same_length Rows) |].
  split; [now rewrite Q3, L3 |].
  split; [reflexivity |].
  split; [rewrite Q4, L4; reflexivity |].
  split; [| exact Copies].
  rewrite rows_of_items_length, length_firstn.
  unfold pushed_items. rewrite saved_of_lines_length. lia.
Qed.

Lemma persist_quotation_item_refused_witness :
  exists w' inq items quo qitems,
    saveDraftToSupabase demo_env refuse_second_quotation_item
      (demo_draft two_lines) (connect demo_store)
    = (Throw (Error "Create quotation item failed: timeout"), w')
    /\ inquiries (store w') = inquiries demo_store ++ [inq]
    /\ inquiry_items (store w') = inquiry_items demo_store ++ items
    /\ length items = 2
    /\ quotations (store w') = quotations demo_store ++ [quo]
    /\ Quotation.inquiry_id (row quo) = row_id inq
    /\ quotation_items (store w') = quotation_items demo_store ++ qitems
    /\ length qitems = 1
    /\ Forall2 (quotation_item_copies (row_id quo) (owner demo_env))
               (firstn 1 items) qitems.
Proof.
  apply (@persist_quotation_item_refused demo_env
           refuse_second_quotation_item (demo_draft two_lines) demo_store
           1 {| message := "timeout" |}).
  - repeat split; discriminate.
  - discriminate.
  - reflexivity.
  - intros j _. reflexivity.
  - reflexivity.
  - simpl. lia.
  - intros j Hj. destruct j; [reflexivity | lia].
  - reflexivity.
Defined.

(** ** Runs in which every insert is accepted *)









(** ** What no run of the chain does *)

Lemma extends_refl (w : World) : extends w w.
Proof.
  unfold extends. repeat split; try (exists []; now rewrite app_nil_r).
Qed.

Lemma extends_trans (w1 w2 w3 : World) :
  extends w1 w2 -> extends w2 w3 -> extends w1 w3.
Proof.
  intros ((a & A) & (b & B) & (c & C) & (d & D) & E & F & (l & L & Lok))
         ((a' & A') & (b' & B') & (c' & C') & (d' & D') & E' & F'
          & (l' & L' & Lok')).
  unfold extends.
  rewrite A', A, B', B, C', C, D', D, E', E, F', F, L', L.
  rewrite <- !app_assoc.
  repeat split; eauto.
  exists (l ++ l'). split; [reflexivity |].
  rewrite forallb_app, Lok, Lok'. reflexivity.
Qed.

Lemma extends_sent (r : Request) (w : World) :
  chain_request r = true -> extends w (sent r w).
Proof.
  intro H. unfold extends, sent. simpl.
  repeat split; try (exists []; now rewrite app_nil_r).
  exists [r]. simpl. now rewrite H.
Qed.

Lemma extending_ret {A} (a : A) : extending (ret a).
Proof. intro w. apply extends_refl. Qed.

Lemma extending_throw {A} (e : Exn) : extending (@throw A e).
Proof. intro w. apply extends_refl. Qed.

Lemma extending_lift {A} (r : Result A) : extending (lift r).
Proof. intro w. apply extends_refl. Qed.

Lemma extending_bind {A B} (m : IO A) (k : A -> IO B) :
  extending m -> (forall a, extending (k a)) -> extending (bind m k).
Proof.
  intros Hm Hk w. unfold bind. specialize (Hm w).
  destruct (m w) as [[a | e] w1]; simpl in Hm |- *; [| exact Hm].
  exact (extends_trans Hm (Hk a w1)).
Qed.

Section ExtendingClient.

Variable faults : Faults.

Ltac insert_extends :=
  intro w; unfold insert;
  destruct (faults _ _); simpl;
  [ now apply extends_sent
  | unfold extends; simpl;
    repeat split; try (exists []; now rewrite app_nil_r);
    try (eexists; reflexivity);
    eexists; split; [reflexivity | reflexivity] ].

Lemma extending_insert_inquiry (p : Inquiry.t) :
  extending (insert faults T_inquiries add_inquiry p).
Proof. insert_extends. Qed.

Lemma extending_insert_inquiry_item (p : InquiryItem.t) :
  extending (insert faults T_inquiry_items add_inquiry_item p).
Proof. insert_extends. Qed.

Lemma extending_insert_quotation (p : Quotation.t) :
  extending (insert faults T_quotations add_quotation p).
Proof. insert_extends. Qed.

Lemma extending_insert_quotation_item (p : QuotationItem.t) :
  extending (insert faults T_quotation_items add_quotation_item p).
Proof. insert_extends. Qed.

Lemma extending_resolveBrand (input : string) :
  extending (resolveBrand faults input).
Proof.
  intro w. rewrite resolveBrand_run. simpl. now apply extends_sent.
Qed.

Lemma extending_select_price_list (b c : string) :
  extending (select_price_list faults b c).
Proof.
  intro w. unfold select_price_list.
  destruct (faults T_price_list _); simpl; [now apply extends_sent |].
  destruct (price_matches b c (store w)) as [| r [| r' more]]; simpl;
    now apply extends_sent.
Qed.

Lemma extending_save_lines (inquiry : Id) (userId : string)
      (todo : list DraftLine) :
  forall acc, extending (save_lines faults inquiry userId todo acc).
Proof.
  induction todo as [| l rest IH]; intro acc; simpl.
  - apply extending_ret.
  - apply extending_bind; [apply extending_resolveBrand |].
    intro b. apply extending_bind;
      [apply extending_insert_inquiry_item |].
    intro r. destruct (error r), (data r);
      auto using extending_throw.
Qed.

Lemma extending_save_quotation_items (quotation : Id) (userId : string)
      (todo : list SavedItem.t) :
  extending (save_quotation_items faults quotation userId todo).
Proof.
  induction todo as [| it rest IH]; simpl.
  - apply extending_ret.
  - apply extending_bind; [apply extending_select_price_list |].
    intro h. apply extending_bind;
      [apply extending_insert_quotation_item |].
    intro r. destruct (error r); auto using extending_throw.
Qed.

Lemma extending_saveDraftToSupabase (env : ProcessEnv) (draft : Draft) :
  extending (saveDraftToSupabase env faults draft).
Proof.
  unfold saveDraftToSupabase.
  destruct (negb (truthy (text_env (SUPABASE_URL env) ""))
            || negb (truthy (text_env (SUPABASE_SERVICE_ROLE_KEY env) ""))
            || negb (truthy (text_env (SANDBOX_OWNER_USER_ID env) "")));
    [apply extending_throw |].
  destruct (length (lines draft) =? 0); [apply extending_throw |].
  apply extending_bind; [apply extending_insert_inquiry |].
  intro ri. destruct (error ri), (data ri); try apply extending_throw.
  apply extending_bind; [apply extending_save_lines |].
  intro saved. apply extending_bind; [apply extending_insert_quotation |].
  intro rq. destruct (error rq), (data rq); try apply extending_throw.
  apply extending_bind; [apply extending_save_quotation_items |].
  intros _. apply extending_ret.
Qed.

End ExtendingClient.

(** Whatever is refused and wherever it stops, a run of
    [saveDraftToSupabase] only appends: the rows each of the four
    tables had are still there, in place, before the new ones; the
    alias table and the price list are unchanged; and the requests it
    sends are inserts into the four tables and lookups in the two
    others, never a delete. *)
Theorem persist_only_appends :
  forall (env : ProcessEnv) (faults : Faults) (draft : Draft) (w : World),
    extends w (snd (saveDraftToSupabase env faults draft w))
    /\ forall t,
        In (Delete t) (wire (snd (saveDraftToSupabase env faults draft w)))
        -> In (Delete t) (wire w).
Proof.
  intros env faults draft w.
  pose proof (extending_saveDraftToSupabase faults env draft w) as E.
  split; [exact E |].
  destruct E as (_ & _ & _ & _ & _ & _ & (l & -> & Ok)).
  intros t Hin. apply in_app_or in Hin. destruct Hin as [Hin | Hin];
    [exact Hin |].
  rewrite forallb_forall in Ok. specialize (Ok _ Hin). discriminate.
Qed.

(** ** The handler: gate, failures and saving *)

Section MoreHandlerFacts.

Variable env : ProcessEnv.
Variable faults : Faults.
Variable JSON_parse : string -> Result JsValue.
Variable pullLatestEmail : Result Mail.t.
Variable aiExtract : Ai.input -> Result Ai.t.

(** The [try] block, once the body, the mail, the extraction and the
    draft are there. *)
Lemma run_after_normalising (req : HttpRequest) (w : World)
      (b : JsValue) (m : Mail.t) (a : Ai.t) (d : Draft) :
  request_body JSON_parse req = Ok b ->
  pullLatestEmail = Ok m ->
  aiExtract (ai_input m) = Ok a ->
  transformAiToDraft (Ai.json a) = Ok d ->
  run env faults JSON_parse pullLatestEmail aiExtract req w
  = if save_flag b
    then match saveDraftToSupabase env faults d w with
         | (Ok ids, w') =>
             (Ok (Success true (mail_summary m) (Ai.model a) (Ai.json a)
                          d (Some ids)), w')
         | (Throw err, w') => (Throw err, w')
         end
    else (Ok (Success false (mail_summary m) (Ai.model a) (Ai.json a)
                      d None), w).
Proof.
  intros B M A T. unfold run, bind, lift. rewrite B, M.
  unfold ai_input in A. rewrite A, T.
  destruct (save_flag b); [| reflexivity].
  destruct (saveDraftToSupabase env faults d w) as [[ids | err] w'];
    reflexivity.
Qed.

(** The [try] block when one of the four steps before saving throws. *)
Lemma run_upstream_failure (req : HttpRequest) (w : World) (err : Exn) :
  request_body JSON_parse req = Throw err
  \/ (exists b, request_body JSON_parse req = Ok b
                /\ pullLatestEmail = Throw err)
  \/ (exists b m, request_body JSON_parse req = Ok b
                  /\ pullLatestEmail = Ok m
                  /\ aiExtract (ai_input m) = Throw err)
  \/ (exists b m a, request_body JSON_parse req = Ok b
                    /\ pullLatestEmail = Ok m
                    /\ aiExtract (ai_input m) = Ok a
                    /\ transformAiToDraft (Ai.json a) = Throw err) ->
  run env faults JSON_parse pullLatestEmail aiExtract req w
  = (Throw err, w).
Proof.
  unfold run, bind, lift, ai_input.
  intros [B | [(b & B & M) | [(b & m & B & M & A)
                             | (b & m & a & B & M & A & T)]]].
  - now rewrite B.
  - now rewrite B, M.
  - now rewrite B, M, A.
  - now rewrite B, M, A, T.
Qed.

(** An answer of the [try] block is a 200 answer. *)
Lemma run_answer_is_success (req : HttpRequest) (w w' : World)
      (answer : HttpResponse) :
  run env faults JSON_parse pullLatestEmail aiExtract req w
  = (Ok answer, w') ->
  exists save mail model json draft saved,
    answer = Success save mail model json draft saved.
Proof.
  unfold run, bind, lift.
  destruct (request_body JSON_parse req) as [b | e]; [| discriminate].
  destruct pullLatestEmail as [m | e]; [| discriminate].
  destruct (aiExtract _) as [a | e]; [| discriminate].
  destruct (transformAiToDraft (Ai.json a)) as [d | e]; [| discriminate].
  destruct (save_flag b).
  - destruct (saveDraftToSupabase env faults d w) as [[ids | e] w1];
      [| discriminate].
    unfold ret. intro H. injection H as <- _. eauto 10.
  - unfold ret. intro H. injection H as <- _. eauto 10.
Qed.

End MoreHandlerFacts.

(** The handler answers 405 to every request that is not a POST,
    before looking at the token; it answers 401 to a POST whose
    [x-sandbox-token], trimmed, differs from the configured token,
    trimmed; in both cases nothing is pulled, extracted or written.
    With no token configured (unset or blank), or with the matching
    token, it never answers 401. *)
Theorem handler_gate :
  forall (env : ProcessEnv) (faults : Faults)
         (JSON_parse : string -> Result JsValue)
         (pullLatestEmail : Result Mail.t)
         (aiExtract : Ai.input -> Result Ai.t)
         (req : HttpRequest) (w : World),
    let token := text_env (SANDBOX_ENDPOINT_TOKEN env) "" in
    let got := text_env (x_sandbox_token req) "" in
    let answer :=
      handler env faults JSON_parse pullLatestEmail aiExtract req w in
    (method req <> "POST" -> answer = (MethodNotAllowed, w))
    /\ (method req = "POST" -> token <> "" -> got <> token ->
        answer = (Unauthorized, w))
    /\ (token = "" \/ got = token -> fst answer <> Unauthorized).
Proof.
  intros env faults JSON_parse pullLatestEmail aiExtract req w.
  cbn zeta.
  assert (Ran : unauthorized env req = false ->
                method req = "POST" ->
                fst (handler env faults JSON_parse pullLatestEmail
                             aiExtract req w) <> Unauthorized).
  { intros U P. unfold handler. rewrite U, P. simpl.
    destruct (run env faults JSON_parse pullLatestEmail aiExtract req w)
      as [[answer | err] w1] eqn:R; simpl; [| discriminate].
    apply run_answer_is_success in R.
    destruct R as (? & ? & ? & ? & ? & ? & ->). discriminate. }
  destruct (String.eqb_spec (method req) "POST") as [Post | NotPost].
  2: { assert (E : handler env faults JSON_parse pullLatestEmail
                           aiExtract req w = (MethodNotAllowed, w)).
       { unfold handler.
         destruct (String.eqb_spec (method req) "POST");
           [contradiction | reflexivity]. }
       rewrite E. repeat split; try congruence. intros _; discriminate. }
  split; [congruence |].
  unfold unauthorized in Ran.
  destruct (truthy (text_env (SANDBOX_ENDPOINT_TOKEN env) "")) eqn:T;
    simpl in Ran.
  - pose proof (proj1 (truthy_nonempty _) T) as Tn.
    destruct (String.eqb_spec (text_env (x_sandbox_token req) "")
                (text_env (SANDBOX_ENDPOINT_TOKEN env) ""))
      as [Same | Differ].
    + split; [congruence | auto].
    + split.
      * intros _ _ _. unfold handler, unauthorized. rewrite Post. simpl.
        rewrite T. simpl.
        destruct (String.eqb_spec (text_env (x_sandbox_token req) "")
                    (text_env (SANDBOX_ENDPOINT_TOKEN env) ""));
          [contradiction | reflexivity].
      * intros [E | E]; congruence.
  - apply truthy_false_empty in T. split; [congruence | auto].
Qed.

(** When the body, the mail, the extraction or the normalisation
    throws, the handler of an authorised POST answers 500 with the
    exception's message (its name when the message is empty) and its
    name, and sends nothing to the datastore, whether [save] was asked
    or not. *)
Theorem handler_reports_upstream_failure :
  forall (env : ProcessEnv) (faults : Faults)
         (JSON_parse : string -> Result JsValue)
         (pullLatestEmail : Result Mail.t)
         (aiExtract : Ai.input -> Result Ai.t)
         (req : HttpRequest) (w : World) (err : Exn),
    method req = "POST" ->
    unauthorized env req = false ->
    request_body JSON_parse req = Throw err
    \/ (exists b, request_body JSON_parse req = Ok b
                  /\ pullLatestEmail = Throw err)
    \/ (exists b m, request_body JSON_parse req = Ok b
                    /\ pullLatestEmail = Ok m
                    /\ aiExtract (ai_input m) = Throw err)
    \/ (exists b m a, request_body JSON_parse req = Ok b
                      /\ pullLatestEmail = Ok m
                      /\ aiExtract (ai_input m) = Ok a
                      /\ transformAiToDraft (Ai.json a) = Throw err) ->
    handler env faults JSON_parse pullLatestEmail aiExtract req w
    = (Failure (or_else (exn_message err) (exn_name err)) (exn_name err),
       w).
Proof.
  intros env faults JSON_parse pullLatestEmail aiExtract req w err P U H.
  unfold handler. rewrite P, U. simpl.
  now rewrite run_upstream_failure with (err := err) by exact H.
Qed.

(** With a truthy [save], the handler of an authorised POST saves the
    normalised draft: it answers 200 with [save: true] and the two
    identifiers when [saveDraftToSupabase] returns, and 500 with the
    message of its exception when it throws; in both cases the
    datastore is left as [saveDraftToSupabase] left it, partial writes
    included. *)
Theorem handler_saves_normalised_draft :
  forall (env : ProcessEnv) (faults : Faults)
         (JSON_parse : string -> Result JsValue)
         (pullLatestEmail : Result Mail.t)
         (aiExtract : Ai.input -> Result Ai.t)
         (req : HttpRequest) (w : World)
         (b : JsValue) (m : Mail.t) (a : Ai.t) (d : Draft),
    method req = "POST" ->
    unauthorized env req = false ->
    request_body JSON_parse req = Ok b ->
    save_flag b = true ->
    pullLatestEmail = Ok m ->
    aiExtract (ai_input m) = Ok a ->
    transformAiToDraft (Ai.json a) = Ok d ->
    handler env faults JSON_parse pullLatestEmail aiExtract req w
    = match saveDraftToSupabase env faults d w with
      | (Ok ids, w') =>
          (Success true (mail_summary m) (Ai.model a) (Ai.json a) d
                   (Some ids), w')
      | (Throw err, w') =>
          (Failure (or_else (exn_message err) (exn_name err))
                   (exn_name err), w')
      end.
Proof.
  intros env faults JSON_parse pullLatestEmail aiExtract req w b m a d
         P U B S M A T.
  unfold handler. rewrite P, U. simpl.
  rewrite run_after_normalising with (b := b) (m := m) (a := a) (d := d)
    by assumption.
  rewrite S.
  destruct (saveDraftToSupabase env faults d w) as [[ids | err] w'];
    reflexivity.
Qed.

Lemma handler_reports_upstream_failure_witness :
  handler demo_env no_faults no_parse
          (Throw (Error "Mailbox is empty.")) demo_ai save_request
          (connect demo_store)
  = (Failure "Mailbox is empty." "Error", connect demo_store).
Proof.
  apply (@handler_reports_upstream_failure demo_env no_faults no_parse
           (Throw (Error "Mailbox is empty.")) demo_ai save_request
           (connect demo_store) (Error "Mailbox is empty.")).
  - reflexivity.
  - reflexivity.
  - right. left. exists (JObj [("save", JBool true)]).
    split; reflexivity.
Defined.

Lemma handler_saves_normalised_draft_witness :
  handler demo_env no_faults no_parse (Ok demo_mail) demo_ai save_request
          (connect demo_store)
  = match saveDraftToSupabase demo_env no_faults demo_normalised
            (connect demo_store) with
    | (Ok ids, w') =>
        (Success true (mail_summary demo_mail) "gpt-4o-mini"
                 demo_extraction demo_normalised (Some ids), w')
    | (Throw err, w') =>
        (Failure (or_else (exn_message err) (exn_name err))
                 (exn_name err), w')
    end.
Proof.
  apply (@handler_saves_normalised_draft demo_env no_faults no_parse
           (Ok demo_mail) demo_ai save_request (connect demo_store)
           (JObj [("save", JBool true)]) demo_mail demo_ai_result
           demo_normalised);
    reflexivity.
Defined.

(** When [save] is asked and no item of the extraction is a valid
    line, the handler of an authorised POST, with the configuration
    present, answers 500 with ["No valid lines to save."] and sends
    nothing to the datastore. *)
Theorem handler_save_without_valid_lines :
  forall (env : ProcessEnv) (faults : Faults)
         (JSON_parse : string -> Result JsValue)
         (pullLatestEmail : Result Mail.t)
         (aiExtract : Ai.input -> Result Ai.t)
         (req : HttpRequest) (w : World)
         (b : JsValue) (m : Mail.t) (a : Ai.t) (d : Draft),
    method req = "POST" ->
    unauthorized env req = false ->
    request_body JSON_parse req = Ok b ->
    save_flag b = true ->
    pullLatestEmail = Ok m ->
    aiExtract (ai_input m) = Ok a ->
    transformAiToDraft (Ai.json a) = Ok d ->
    lines d = [] ->
    configured env ->
    handler env faults JSON_parse pullLatestEmail aiExtract req w
    = (Failure "No valid lines to save." "Error", w).
Proof.
  intros env faults JSON_parse pullLatestEmail aiExtract req w b m a d
         P U B S M A T L C.
  unfold handler. rewrite P, U. simpl.
  rewrite run_after_normalising with (b := b) (m := m) (a := a) (d := d)
    by assumption.
  rewrite S. unfold saveDraftToSupabase.
  rewrite (configured_passes C), L. reflexivity.
Qed.

Lemma handler_save_without_valid_lines_witness :
  handler demo_env no_faults no_parse (Ok demo_mail) unquotable_ai
          save_request (connect demo_store)
  = (Failure "No valid lines to save." "Error", connect demo_store).
Proof.
  apply (@handler_save_without_valid_lines demo_env no_faults no_parse
           (Ok demo_mail) unquotable_ai save_request (connect demo_store)
           (JObj [("save", JBool true)]) demo_mail
           {| Ai.model := "gpt-4o-mini"; Ai.json := unquotable_extraction;
              Ai.raw := "{}" |}
           unquotable_draft);
    try reflexivity.
  repeat split; discriminate.
Defined.

(** ** Shape of the drafts *)

Lemma trimStart_no_space (s : string) :
  starts_with_space (trimStart s) = false.
Proof.
  induction s as [| c r IH]; simpl; [reflexivity |].
  destruct (is_space c) eqn:E; [exact IH | simpl; exact E].
Qed.

Lemma trimEnd_keeps_start (s : string) :
  starts_with_space s = false -> starts_with_space (trimEnd s) = false.
Proof.
  destruct s as [| c r]; simpl; [reflexivity |].
  intro E. rewrite E. simpl. exact E.
Qed.

Lemma trimEnd_no_space (s : string) :
  ends_with_space (trimEnd s) = false.
Proof.
  induction s as [| c r IH]; simpl; [reflexivity |].
  destruct (trimEnd r) as [| c' r'] eqn:T.
  - simpl. destruct (is_space c) eqn:E; simpl; [reflexivity | exact E].
  - cbn [is_empty]. rewrite andb_false_r. exact IH.
Qed.

Lemma trim_tidy (s : string) : tidy (trim s).
Proof.
  split.
  - apply trimEnd_keeps_start, trimStart_no_space.
  - apply trimEnd_no_space.
Qed.

Lemma coerced_tidy (v : JsValue) (t : string) :
  coerced v = Ok t -> tidy t.
Proof.
  unfold coerced. intro H. invert_binds. subst t. apply trim_tidy.
Qed.

Lemma text_tidy (v : JsValue) (s : string) :
  text v "" = Ok s -> tidy s.
Proof.
  intro H. apply text_coerced in H. destruct H as (t & C & ->).
  rewrite or_else_blank. exact (coerced_tidy _ C).
Qed.
















(** When the [items] of an extraction are missing or are not a list,
    the normaliser does not fail on them: a readable extraction gives
    a draft with no line. *)
Theorem items_not_a_list_give_no_line :
  forall ai : JsValue,
    readable ai = true ->
    (forall elems, get_opt ai "items" <> JArr elems) ->
    exists d, transformAiToDraft ai = Ok d /\ lines d = [].
Proof.
  intros ai R N.
  destruct (transformAiToDraft_total ai R) as (d & H).
  exists d. split; [exact H |].
  apply transformAiToDraft_lines in H. destruct H as (mapped & M & ->).
  unfold items_of in M.
  destruct (get_opt ai "items") as [| | | | | elems |];
    try (simpl in M; injection M as <-; reflexivity).
  now elim (N elems).
Qed.

Lemma items_not_a_list_give_no_line_witness :
  exists d,
    transformAiToDraft
      (JObj [("customer", JNull); ("items", JStr "1 x abc co xy-100")])
    = Ok d
    /\ lines d = [].
Proof.
  apply (@items_not_a_list_give_no_line
           (JObj [("customer", JNull);
                  ("items", JStr "1 x abc co xy-100")])).
  - reflexivity.
  - intros elems H. discriminate H.
Defined.


(** ** Subjects *)













Lemma trimStart_idem (s : string) : trimStart (trimStart s) = trimStart s.
Proof.
  induction s as [| c r IH]; simpl; [reflexivity |].
  destruct (is_space c) eqn:E; [exact IH |]. simpl. now rewrite E.
Qed.







Lemma sapp_assoc (a b c : string) :
  ((a ++ b) ++ c = a ++ (b ++ c))%string.
Proof. induction a as [| x r IH]; simpl; [| rewrite IH]; reflexivity. Qed.

Lemma sapp_nil_r (a : string) : (a ++ "" = a)%string.
Proof. induction a as [| x r IH]; simpl; [| rewrite IH]; reflexivity. Qed.

















Lemma sapp_not_empty (a : string) (c : ascii) (r : string) :
  is_empty (a ++ String c r) = false.
Proof. destruct a; reflexivity. Qed.




Lemma trimEnd_idem (s : string) : trimEnd (trimEnd s) = trimEnd s.
Proof.
  induction s as [| c r IH]; simpl; [reflexivity |].
  destruct (trimEnd r) as [| c' r'] eqn:T.
  - destruct (is_space c) eqn:E; simpl; [reflexivity |].
    now rewrite E.
  - cbn [is_empty]. rewrite andb_false_r.
    change (trimEnd (String c (String c' r')))
      with (if is_space c && is_empty (trimEnd (String c' r'))
            then "" else String c (trimEnd (String c' r'))).
    rewrite IH. cbn [is_empty]. now rewrite andb_false_r.
Qed.















(** ** The mailbox *)

Lemma imap_configured_passes (env : Imap.env) :
  imap_configured env ->
  negb (truthy (Imap.host (imap_options env)))
  || negb (truthy (Imap.user (imap_options env)))
  || negb (truthy (Imap.pass (imap_options env))) = false.
Proof.
  intros (H & U & P). apply truthy_nonempty in H, U, P. simpl.
  now rewrite H, U, P.
Qed.

(** The calls of the [try] block are mailbox calls, and [lock] is set
    exactly when the lock was obtained. *)
Lemma pull_body_calls (env : Imap.env) (s : Imap.session) :
  List.forallb mailbox_call (snd (fst (pull_body env s))) = true
  /\ snd (pull_body env s) = locked s.
Proof.
  unfold pull_body, locked.
  destruct (Imap.connect s) as [[] | e]; [| split; reflexivity].
  destruct (Imap.getMailboxLock s) as [[] | e]; [| split; reflexivity].
  destruct (Imap.mailboxOpen s) as [[| n] | e]; try (split; reflexivity).
  destruct (Imap.fetchOne s) as [[latest |] | e];
    try (split; reflexivity).
  destruct (source_bytes (Imap.f_source latest)) as [bytes |];
    [| split; reflexivity].
  destruct (Imap.simpleParser s bytes); split; reflexivity.
Qed.

Lemma pull_body_ignores_logout (env : Imap.env) (s : Imap.session)
      (u : bool) (l : Result unit) :
  pull_body env (with_logout s u l) = pull_body env s.
Proof. reflexivity. Qed.

(** Without a host, a user or a password (unset or blank),
    [pullLatestEmail] throws the configuration error before creating
    the client: no call is made. *)
Theorem pull_without_configuration :
  forall (env : Imap.env) (s : Imap.session),
    ~ imap_configured env ->
    pullLatestEmail env s
    = (Throw (Error "Missing IMAP_HOST/IMAP_USER/IMAP_PASS"), []).
Proof.
  intros env s N. unfold pullLatestEmail. simpl.
  destruct (truthy (text_env (Imap.IMAP_HOST env) "")) eqn:H;
    [| reflexivity].
  destruct (truthy (text_env (Imap.IMAP_USER env) "")) eqn:U;
    [| reflexivity].
  destruct (truthy (text_env (Imap.IMAP_PASS env) "")) eqn:P;
    [| reflexivity].
  exfalso. apply N. apply truthy_nonempty in H, U, P.
  repeat split; assumption.
Qed.

Lemma pull_without_configuration_witness :
  pullLatestEmail no_imap_env demo_session
  = (Throw (Error "Missing IMAP_HOST/IMAP_USER/IMAP_PASS"), []).
Proof.
  apply (@pull_without_configuration no_imap_env demo_session).
  intros (_ & U & _). apply U. reflexivity.
Defined.

(** Whatever fails, a configured [pullLatestEmail] ends its session in
    order: the calls are the mailbox calls, then one release of the
    lock exactly when the lock was obtained, then one logout exactly
    when the client is usable; and neither the logout's outcome nor
    [usable] changes what [pullLatestEmail] returns or throws. *)
Theorem pull_releases_lock_and_logs_out :
  forall (env : Imap.env) (s : Imap.session),
    imap_configured env ->
    (exists work,
        snd (pullLatestEmail env s)
        = work
          ++ (if locked s then [Imap.Release] else [])
          ++ (if Imap.usable s then [Imap.Logout] else [])
        /\ List.forallb mailbox_call work = true)
    /\ forall u l,
        fst (pullLatestEmail env (with_logout s u l))
        = fst (pullLatestEmail env s).
Proof.
  intros env s C. unfold pullLatestEmail.
  rewrite (imap_configured_passes C). split.
  - destruct (pull_body_calls env s) as [W L].
    destruct (pull_body env s) as [[outcome calls] lock].
    simpl in W, L |- *. subst lock. exists calls. auto.
  - intros u l. rewrite pull_body_ignores_logout.
    destruct (pull_body env s) as [[outcome calls] lock]. reflexivity.
Qed.

Lemma pull_releases_lock_and_logs_out_witness :
  (exists work,
      snd (pullLatestEmail demo_imap_env demo_session)
      = work
        ++ (if locked demo_session then [Imap.Release] else [])
        ++ (if Imap.usable demo_session then [Imap.Logout] else [])
      /\ List.forallb mailbox_call work = true)
  /\ forall u l,
      fst (pullLatestEmail demo_imap_env (with_logout demo_session u l))
      = fst (pullLatestEmail demo_imap_env demo_session).
Proof.
  apply (@pull_releases_lock_and_logs_out demo_imap_env demo_session).
  repeat split; discriminate.
Defined.

(** Only the latest message is fetched: the one call to [fetchOne], if
    any, is made for the sequence number equal to the number of
    messages in the mailbox, which is then not zero; on an empty
    mailbox a configured [pullLatestEmail] that got the lock throws
    ["Mailbox is empty."] without fetching. *)
Theorem pull_fetches_the_latest_message :
  forall (env : Imap.env) (s : Imap.session),
    (forall range,
        In (Imap.FetchOne range) (snd (pullLatestEmail env s)) ->
        exists count,
          Imap.mailboxOpen s = Ok count /\ count <> 0
          /\ range = decimal count)
    /\ (imap_configured env -> locked s = true ->
        Imap.mailboxOpen s = Ok 0 ->
        fst (pullLatestEmail env s) = Throw (Error "Mailbox is empty.")
        /\ forall range,
            ~ In (Imap.FetchOne range) (snd (pullLatestEmail env s))).
Proof.
  intros env s.
  assert (Fin : forall lock range,
             ~ In (Imap.FetchOne range) (pull_finally s lock)).
  { intros lock range. unfold pull_finally.
    destruct lock, (Imap.usable s); simpl; intuition discriminate. }
  split.
  - intros range. unfold pullLatestEmail.
    destruct (negb _ || negb _ || negb _); [intros [] |].
    unfold pull_body.
    destruct (Imap.connect s) as [[] | e];
      [| cbn [In app snd]; intros [H | H];
         [discriminate | now apply Fin in H]].
    destruct (Imap.getMailboxLock s) as [[] | e];
      [| cbn [In app snd]; intros [H | [H | H]];
         try discriminate; now apply Fin in H].
    destruct (Imap.mailboxOpen s) as [[| n] | e];
      try (cbn [In app snd]; intros [H | [H | [H | H]]];
           try discriminate; now apply Fin in H).
    assert (Done : forall (outcome : Result Mail.t),
               In (Imap.FetchOne range)
                  (snd (outcome,
                        (([Imap.Connect (imap_options env)]
                          ++ [Imap.GetMailboxLock (imap_mailbox env)])
                         ++ [Imap.MailboxOpen (imap_mailbox env)])
                        ++ [Imap.FetchOne
                              (NilZero.string_of_uint
                                 (Nat.to_uint (S n)))]
                        ++ pull_finally s true)) ->
               exists count, Ok (S n) = Ok count /\ count <> 0
                             /\ range = decimal count).
    { intros outcome. cbn [In app snd].
      intros [H | [H | [H | [H | H]]]]; try discriminate.
      - injection H as <-. exists (S n). auto.
      - now apply Fin in H. }
    cbv zeta.
    destruct (Imap.fetchOne s) as [[latest |] | e];
      try (rewrite <- app_assoc; apply Done).
    destruct (source_bytes (Imap.f_source latest)) as [bytes |];
      [| rewrite <- app_assoc; apply Done].
    destruct (Imap.simpleParser s bytes);
      rewrite <- app_assoc; apply Done.
  - intros C L E. unfold pullLatestEmail.
    rewrite (imap_configured_passes C). unfold pull_body.
    unfold locked in L.
    destruct (Imap.connect s) as [[] | e]; [| discriminate].
    destruct (Imap.getMailboxLock s) as [[] | e]; [| discriminate].
    rewrite E. split; [reflexivity |].
    intros range. cbn [In app snd]. intros [H | [H | [H | H]]];
      try discriminate. now apply Fin in H.
Qed.






(* ================================================================= *)
(** ** The extraction service *)

Lemma length_of_append (a b : string) :
  String.length (a ++ b) = String.length a + String.length b.
Proof. induction a as [| c a IH]; simpl; [reflexivity | now rewrite IH]. Qed.

Lemma slice0_length (n : nat) (s : string) :
  String.length (slice0 n s) = Nat.min n (String.length s).
Proof.
  revert s. induction n as [| n IH]; intros [| c r]; simpl;
    try reflexivity.
  now rewrite IH.
Qed.

Lemma slice0_prefix (n : nat) (s : string) :
  exists rest, s = (slice0 n s ++ rest)%string.
Proof.
  revert s. induction n as [| n IH]; intros s.
  - exists s. now destruct s.
  - destruct s as [| c r].
    + now exists "".
    + destruct (IH r) as [rest E]. exists rest. simpl. now rewrite <- E.
Qed.

Lemma ai_configured_passes (env : OpenAi.env) :
  ai_configured env ->
  negb (truthy (text_env (OpenAi.OPENAI_API_KEY env) "")) = false.
Proof.
  intro C. apply truthy_nonempty in C. now rewrite C.
Qed.

Lemma join_lines_last (l : list string) (x : string) :
  l <> [] ->
  join_lines (l ++ [x]) = (join_lines l ++ line_feed ++ x)%string.
Proof.
  induction l as [| a l IH]; intro N; [now elim N |].
  destruct l as [| b l].
  - reflexivity.
  - change (join_lines ((a :: b :: l) ++ [x]))
      with (a ++ line_feed ++ join_lines ((b :: l) ++ [x]))%string.
    rewrite IH by discriminate.
    change (join_lines (a :: b :: l))
      with (a ++ line_feed ++ join_lines (b :: l))%string.
    now rewrite !sapp_assoc.
Qed.

(** The prompt is a heading made of the fixed lines, the subject and
    the sender, followed by the cut text. *)
Lemma prompt_of_split (mail : Ai.input) :
  exists head,
    prompt_of mail = (head ++ slice0 12000 (Ai.text mail))%string
    /\ String.length head
       = String.length (prompt_of blank_mail)
         + String.length (Ai.subject mail)
         + String.length (Ai.from mail).
Proof.
  unfold prompt_of at 1.
  set (body := slice0 12000 (Ai.text mail)).
  exists (join_lines
            (prompt_head
             ++ [("Subject: " ++ Ai.subject mail)%string;
                 ("From: " ++ Ai.from mail)%string; "Body:"])
          ++ line_feed)%string.
  split.
  - rewrite sapp_assoc.
    rewrite <- join_lines_last by (unfold prompt_head; discriminate).
    rewrite <- app_assoc. reflexivity.
  - unfold prompt_head. cbn [app join_lines].
    rewrite !length_of_append.
    replace (String.length (prompt_of blank_mail)) with 416
      by (vm_compute; reflexivity).
    cbn [String.length line_feed]. lia.
Qed.

Lemma or_else_nonempty (a b : string) : b <> "" -> or_else a b <> "".
Proof.
  intro N. unfold or_else. destruct (truthy a) eqn:T; [| exact N].
  now apply truthy_nonempty.
Qed.

Lemma ai_configured_key (env : OpenAi.env) :
  ai_configured env ->
  exists key,
    OpenAi.OPENAI_API_KEY env = Some key
    /\ text_env (OpenAi.OPENAI_API_KEY env) "" = trim key.
Proof.
  unfold ai_configured, text_env. rewrite or_else_blank.
  destruct (OpenAi.OPENAI_API_KEY env) as [key |]; intro C.
  - now exists key.
  - now elim C.
Qed.

(** What a configured [aiExtract] does: one request, then the reading
    of the answer. *)
Lemma aiExtract_configured (env : OpenAi.env)
      (fetch : OpenAi.request -> Result OpenAi.response)
      (parse : string -> Result JsValue) (mail : Ai.input) :
  ai_configured env ->
  let key := text_env (OpenAi.OPENAI_API_KEY env) "" in
  let model := text_env (OpenAi.OPENAI_MODEL env) "gpt-4o-mini" in
  aiExtract env fetch parse mail
  = (rbind (fetch (ai_request key model mail))
           (read_completion parse model),
     [ai_request key model mail]).
Proof.
  intro C. unfold aiExtract. now rewrite (ai_configured_passes C).
Qed.

(** Without a key (unset or blank), [aiExtract] throws the
    configuration error before it posts anything. *)
Theorem aiExtract_without_key :
  forall (env : OpenAi.env)
         (fetch : OpenAi.request -> Result OpenAi.response)
         (parse : string -> Result JsValue) (mail : Ai.input),
    ~ ai_configured env ->
    aiExtract env fetch parse mail
    = (Throw (Error "Missing OPENAI_API_KEY"), []).
Proof.
  intros env fetch parse mail N. unfold aiExtract.
  destruct (truthy (text_env (OpenAi.OPENAI_API_KEY env) "")) eqn:T;
    [| reflexivity].
  exfalso. apply N. now apply truthy_nonempty.
Qed.

Lemma aiExtract_without_key_witness :
  aiExtract no_ai_env demo_fetch demo_parse demo_ai_input
  = (Throw (Error "Missing OPENAI_API_KEY"), []).
Proof.
  apply (@aiExtract_without_key no_ai_env demo_fetch demo_parse
           demo_ai_input).
  intro C. apply C. reflexivity.
Defined.

(** With a key, [aiExtract] posts exactly one request, whatever the
    service answers: it carries the trimmed key, names a model, and its
    prompt is a heading as long as the fixed lines, the subject and the
    sender, followed by the first 12000 characters of the mail's text
    and no more. *)
Theorem aiExtract_posts_one_bounded_request :
  forall (env : OpenAi.env)
         (fetch : OpenAi.request -> Result OpenAi.response)
         (parse : string -> Result JsValue) (mail : Ai.input),
    ai_configured env ->
    exists key req head body rest,
      snd (aiExtract env fetch parse mail) = [req]
      /\ OpenAi.OPENAI_API_KEY env = Some key
      /\ OpenAi.authorization req = ("Bearer " ++ trim key)%string
      /\ OpenAi.model req <> ""
      /\ OpenAi.prompt req = (head ++ body)%string
      /\ Ai.text mail = (body ++ rest)%string
      /\ String.length body
         = Nat.min 12000 (String.length (Ai.text mail))
      /\ String.length head
         = String.length (prompt_of blank_mail)
           + String.length (Ai.subject mail)
           + String.length (Ai.from mail).
Proof.
  intros env fetch parse mail C.
  rewrite (aiExtract_configured fetch parse mail C).
  destruct (ai_configured_key C) as (key & K & T).
  destruct (prompt_of_split mail) as (head & P & L).
  destruct (slice0_prefix 12000 (Ai.text mail)) as (rest & R).
  exists key, (ai_request (text_env (OpenAi.OPENAI_API_KEY env) "")
                 (text_env (OpenAi.OPENAI_MODEL env) "gpt-4o-mini")
                 mail),
    head, (slice0 12000 (Ai.text mail)), rest.
  split; [reflexivity |].
  split; [exact K |].
  split; [cbn [OpenAi.authorization ai_request]; now rewrite T |].
  split; [cbn [OpenAi.model ai_request];
          apply or_else_nonempty; discriminate |].
  split; [exact P |].
  split; [exact R |].
  split; [apply slice0_length | exact L].
Qed.

Lemma aiExtract_posts_one_bounded_request_witness :
  exists key req head body rest,
    snd (aiExtract demo_ai_env demo_fetch demo_parse demo_ai_input)
    = [req]
    /\ OpenAi.OPENAI_API_KEY demo_ai_env = Some key
    /\ OpenAi.authorization req = ("Bearer " ++ trim key)%string
    /\ OpenAi.model req <> ""
    /\ OpenAi.prompt req = (head ++ body)%string
    /\ Ai.text demo_ai_input = (body ++ rest)%string
    /\ String.length body
       = Nat.min 12000 (String.length (Ai.text demo_ai_input))
    /\ String.length head
       = String.length (prompt_of blank_mail)
         + String.length (Ai.subject demo_ai_input)
         + String.length (Ai.from demo_ai_input).
Proof.
  apply (@aiExtract_posts_one_bounded_request demo_ai_env demo_fetch
           demo_parse demo_ai_input).
  unfold ai_configured. vm_compute. discriminate.
Defined.

(** What [aiExtract] returns comes from an accepted request: the
    service answered the one request with an [ok] response, [raw] is the
    trimmed content of its first choice and is not empty, [json] is what
    [JSON.parse] makes of [raw], and [model] is the model the request
    named, the default one when [OPENAI_MODEL] is unset or blank. *)
Theorem aiExtract_returns_parsed_content :
  forall (env : OpenAi.env)
         (fetch : OpenAi.request -> Result OpenAi.response)
         (parse : string -> Result JsValue) (mail : Ai.input)
         (ai : Ai.t) (reqs : list OpenAi.request),
    aiExtract env fetch parse mail = (Ok ai, reqs) ->
    exists req resp payload,
      reqs = [req]
      /\ fetch req = Ok resp
      /\ OpenAi.ok resp = true
      /\ OpenAi.body_json resp = Ok payload
      /\ coerced (completion_content payload) = Ok (Ai.raw ai)
      /\ Ai.raw ai <> ""
      /\ tidy (Ai.raw ai)
      /\ parse (Ai.raw ai) = Ok (Ai.json ai)
      /\ Ai.model ai = OpenAi.model req
      /\ Ai.model ai <> ""
      /\ (text_env (OpenAi.OPENAI_MODEL env) "" = ""
          -> Ai.model ai = default_model).
Proof.
  intros env fetch parse mail ai reqs H. unfold aiExtract in H.
  destruct (negb (truthy (text_env (OpenAi.OPENAI_API_KEY env) "")));
    [discriminate |].
  set (model := text_env (OpenAi.OPENAI_MODEL env) "gpt-4o-mini") in *.
  set (req := ai_request _ model mail) in *.
  injection H as H <-.
  destruct (fetch req) as [resp | e] eqn:F; [| discriminate].
  simpl in H. unfold read_completion in H.
  destruct (OpenAi.ok resp) eqn:O; simpl in H.
  2:{ destruct (OpenAi.body_text resp); discriminate. }
  destruct (OpenAi.body_json resp) as [payload | e] eqn:J;
    [| discriminate].
  simpl in H.
  destruct (text (completion_content payload) "") as [content | e]
    eqn:T; [| discriminate].
  simpl in H.
  destruct (truthy content) eqn:NE; simpl in H; [| discriminate].
  destruct (parse content) as [json | e] eqn:P; [| discriminate].
  simpl in H. injection H as <-. cbn [Ai.raw Ai.json Ai.model].
  exists req, resp, payload.
  split; [reflexivity |].
  split; [exact F |].
  split; [exact O |].
  split; [exact J |].
  split.
  { apply text_coerced in T. destruct T as (t & C & ->).
    now rewrite or_else_blank. }
  split; [now apply truthy_nonempty |].
  split; [exact (text_tidy _ T) |].
  split; [exact P |].
  split; [reflexivity |].
  split; [apply or_else_nonempty; discriminate |].
  intro B. unfold model, text_env in *. rewrite or_else_blank in B.
  now rewrite B.
Qed.

Lemma aiExtract_returns_parsed_content_witness :
  exists req resp payload,
    [ai_request "sk-test" "gpt-4o-mini" demo_ai_input] = [req]
    /\ demo_fetch req = Ok resp
    /\ OpenAi.ok resp = true
    /\ OpenAi.body_json resp = Ok payload
    /\ coerced (completion_content payload) = Ok "{}"
    /\ "{}" <> ""
    /\ tidy "{}"
    /\ demo_parse "{}" = Ok (JObj [])
    /\ "gpt-4o-mini" = OpenAi.model req
    /\ "gpt-4o-mini" <> ""
    /\ (text_env (OpenAi.OPENAI_MODEL demo_ai_env) "" = ""
        -> "gpt-4o-mini" = default_model).
Proof.
  apply (@aiExtract_returns_parsed_content demo_ai_env demo_fetch
           demo_parse demo_ai_input
           {| Ai.model := "gpt-4o-mini"; Ai.json := JObj [];
              Ai.raw := "{}" |}
           [ai_request "sk-test" "gpt-4o-mini" demo_ai_input]).
  reflexivity.
Defined.

(** A response that is not [ok] is never read as a completion: with a
    key, [aiExtract] throws the error that quotes the status and the
    body's text (or what reading the body threw), whatever the body
    would parse to. *)
Theorem aiExtract_refused_by_service :
  forall (env : OpenAi.env)
         (fetch : OpenAi.request -> Result OpenAi.response)
         (parse : string -> Result JsValue) (mail : Ai.input)
         (resp : OpenAi.response),
    ai_configured env ->
    (forall req, In req (snd (aiExtract env fetch parse mail))
                 -> fetch req = Ok resp) ->
    OpenAi.ok resp = false ->
    fst (aiExtract env fetch parse mail)
    = match OpenAi.body_text resp with
      | Ok body =>
          Throw (Error ("OpenAI error " ++ OpenAi.status resp ++ ": "
                          ++ body)%string)
      | Throw e => Throw e
      end.
Proof.
  intros env fetch parse mail resp C F O.
  rewrite (aiExtract_configured fetch parse mail C) in F |- *.
  cbn [fst snd] in F |- *.
  rewrite (F _ (or_introl eq_refl)). simpl.
  unfold read_completion. rewrite O. simpl.
  destruct (OpenAi.body_text resp); reflexivity.
Qed.

Lemma aiExtract_refused_by_service_witness :
  fst (aiExtract demo_ai_env overloaded_fetch demo_parse demo_ai_input)
  = Throw (Error "OpenAI error 429: rate limited").
Proof.
  apply (@aiExtract_refused_by_service demo_ai_env overloaded_fetch
           demo_parse demo_ai_input
           {| OpenAi.ok := false; OpenAi.status := "429";
              OpenAi.body_text := Ok "rate limited";
              OpenAi.body_json :=
                Throw (SyntaxError "Unexpected token") |}).
  - unfold ai_configured. vm_compute. discriminate.
  - intros req _. reflexivity.
  - reflexivity.
Defined.

(** An [ok] response without content gives no extraction: when the
    payload has no [choices], no first choice, no [message], no
    [content], or a content that is [null] or blank, [aiExtract] throws
    the empty-content error and [JSON.parse] is not consulted. *)
Theorem aiExtract_without_content :
  forall (env : OpenAi.env)
         (fetch : OpenAi.request -> Result OpenAi.response)
         (parse : string -> Result JsValue) (mail : Ai.input)
         (resp : OpenAi.response) (payload : JsValue),
    ai_configured env ->
    (forall req, In req (snd (aiExtract env fetch parse mail))
                 -> fetch req = Ok resp) ->
    OpenAi.ok resp = true ->
    OpenAi.body_json resp = Ok payload ->
    without_content payload ->
    fst (aiExtract env fetch parse mail)
    = Throw (Error "OpenAI returned empty content.").
Proof.
  intros env fetch parse mail resp payload C F O J W.
  rewrite (aiExtract_configured fetch parse mail C) in F |- *.
  cbn [fst snd] in F |- *.
  rewrite (F _ (or_introl eq_refl)). simpl.
  unfold read_completion. rewrite O, J. simpl.
  assert (T : text (completion_content payload) "" = Ok "").
  { destruct W as [N | (s & E & B)].
    - unfold text, nullish_or. rewrite N. reflexivity.
    - rewrite E. unfold text, nullish_or. simpl. now rewrite B. }
  rewrite T. reflexivity.
Qed.

Lemma aiExtract_without_content_witness :
  fst (aiExtract demo_ai_env empty_choices_fetch demo_parse
         demo_ai_input)
  = Throw (Error "OpenAI returned empty content.").
Proof.
  apply (@aiExtract_without_content demo_ai_env empty_choices_fetch
           demo_parse demo_ai_input
           {| OpenAi.ok := true; OpenAi.status := "200";
              OpenAi.body_text := Ok "";
              OpenAi.body_json := Ok (JObj [("choices", JArr [])]) |}
           (JObj [("choices", JArr [])])).
  - unfold ai_configured. vm_compute. discriminate.
  - intros req _. reflexivity.
  - reflexivity.
  - reflexivity.
  - left. reflexivity.
Defined.
